(** * ShortlyX: the persistence, session and playback core, embedded in Rocq

    The development follows the TypeScript sources:
    - [utils/idb]        the IndexedDB adapter (object stores, indexes);
    - [utils/auth]       signup / login / logout over the adapter;
    - [utils/cloudinary] the demo-mode ingestion ([mockUpload]);
    - [pages/Watch]      the watch page handlers ([loadVideo], [handleLike],
                         [handleComment], [handleDelete], [resolveLocalUrl]).

    Conventions of the embedding.
    - A JavaScript string is a Rocq [string] whose characters are code units
      below 256; the key order of IndexedDB on strings is then the
      lexicographic order [String.le].
    - A JavaScript number holding a counter or a millisecond timestamp is a
      [Z]; the counters start at 0 and move by 1, far below 2^53.
    - An object store is a finite map from its keys; reads that enumerate a
      store ([getAll], [getAllFromIndex]) sort the records the way IndexedDB
      returns them.
    - Two storage errors are modelled: the [ConstraintError] IndexedDB
      raises in [add], and the refusal of the blob write of an ingestion (a
      full quota), which the browser decides ([refuses]).  The other reads
      and writes succeed.
    - A promise that is never resolved is an [Awaited] value that stays
      [Pending]: the browser decides whether the file of an ingestion can be
      decoded ([decodes]), and the ingestion of one that cannot never
      settles.
    - [crypto.randomUUID], [Date.now] and the salt of [bcrypt.hash] are read
      from the page's runtime, one reading per call.
    - Handlers run one after the other, each on the state the previous one
      left; other tasks of the page get to run only while a handler waits in
      a timer of its own ([sleep]).
    - The emoji that open some toast titles are left out. *)

From Stdlib Require Import ZArith String Ascii.
From stdpp Require Import gmap strings list sorting pretty.

Local Open Scope Z_scope.
Local Open Scope string_scope.

(** ** JavaScript string primitives used by the sources *)

Module JsString.

(** [s.startsWith(p)] *)
Definition startsWith (s p : string) : bool := String.prefix p s.

Fixpoint drop (n : nat) (s : string) : string :=
  match n, s with
  | O, _ => s
  | S n', String _ s' => drop n' s'
  | S _, EmptyString => EmptyString
  end.

(** [s.replace(pat, rep)] with a string pattern: the first occurrence only.
    ([rep] is used literally; the sources only pass the empty string.) *)
Fixpoint replace (s pat rep : string) : string :=
  if String.prefix pat s then rep +:+ drop (String.length pat) s
  else match s with
       | EmptyString => EmptyString
       | String c s' => String c (replace s' pat rep)
       end.

(** WhiteSpace and LineTerminator code units below 256:
    TAB, LF, VT, FF, CR, SP and NBSP. *)
Definition isWhiteSpace (c : ascii) : bool :=
  match nat_of_ascii c with
  | 9%nat | 10%nat | 11%nat | 12%nat | 13%nat | 32%nat | 160%nat => true
  | _ => false
  end.

Fixpoint trimStart (s : string) : string :=
  match s with
  | EmptyString => EmptyString
  | String c s' => if isWhiteSpace c then trimStart s' else s
  end.

Definition trimEnd (s : string) : string :=
  String.rev (trimStart (String.rev s)).

(** [s.trim()] *)
Definition trim (s : string) : string := trimEnd (trimStart s).

(** Truthiness of a string: only the empty string is falsy. *)
Definition truthy (s : string) : bool :=
  match s with EmptyString => false | _ => true end.

(** [s.split(sep)] for a one-character separator *)
Fixpoint split_go (sep : ascii) (cur : string) (s : string) : list string :=
  match s with
  | EmptyString => [String.rev cur]
  | String c s' =>
      if Ascii.eqb c sep then String.rev cur :: split_go sep EmptyString s'
      else split_go sep (String c cur) s'
  end.
Definition split (s : string) (sep : ascii) : list string :=
  split_go sep EmptyString s.

(** [s.includes(p)] *)
Fixpoint includes (s p : string) : bool :=
  if String.prefix p s then true
  else match s with
       | EmptyString => false
       | String _ s' => includes s' p
       end.

End JsString.

(** ** Data model ([types/index.ts]) *)

Module User.
Record t := mk {
  id : string;
  username : string;
  email : string;
  passwordHash : string;
  bio : option string;
  avatarUrl : option string;
  createdAt : Z;
  lastLogin : option Z }.
End User.

Module Comment.
Record t := mk {
  id : string;
  userId : string;
  username : string;
  text : string;
  timestamp : Z }.
End Comment.

Module Video.
Record t := mk {
  id : string;
  userId : string;
  username : string;
  cloudinaryUrl : string;
  thumbnailUrl : string;
  caption : string;
  tags : list string;
  duration : Z;
  resolution : string;
  likes : Z;
  comments : list Comment.t;
  views : Z;
  uploadedAt : Z }.

(** The object spreads of the watch page: [{ ...video, views: n }] etc. *)
Definition with_views (n : Z) (v : t) : t :=
  mk (id v) (userId v) (username v) (cloudinaryUrl v) (thumbnailUrl v)
     (caption v) (tags v) (duration v) (resolution v) (likes v)
     (comments v) n (uploadedAt v).
Definition with_likes (n : Z) (v : t) : t :=
  mk (id v) (userId v) (username v) (cloudinaryUrl v) (thumbnailUrl v)
     (caption v) (tags v) (duration v) (resolution v) n
     (comments v) (views v) (uploadedAt v).
Definition with_comments (cs : list Comment.t) (v : t) : t :=
  mk (id v) (userId v) (username v) (cloudinaryUrl v) (thumbnailUrl v)
     (caption v) (tags v) (duration v) (resolution v) (likes v)
     cs (views v) (uploadedAt v).
End Video.

Module LogType.
Inductive t :=
  login | logout | signup | upload | delete | like | comment | search | view.
End LogType.

Inductive MetaValue := MetaStr (s : string) | MetaNum (n : Z).

Module Log.
Record t := mk {
  id : string;
  type : LogType.t;
  message : string;
  timestamp : Z;
  metadata : option (list (string * MetaValue)) }.
End Log.

Module Session.
Record t := mk { userId : string; timestamp : Z }.
End Session.

(** A [Blob] is its bytes and its MIME type; a [File] adds a name. *)
Module Blob.
Record t := mk { bytes : list Byte.byte; type : string }.
Definition size (b : t) : Z := Z.of_nat (length (bytes b)).
End Blob.

Module File.
Record t := mk { name : string; blob : Blob.t }.
Definition size (f : t) : Z := Blob.size (blob f).
End File.

(** ** IndexedDB object stores

    A store maps primary keys to records.  With a [keyPath] the key of a
    record is read off the record itself. *)

Inductive DOMException := ConstraintError | QuotaExceededError.

Module IDB.
Section Store.
Context {V : Type}.

Definition key_le (a b : string * V) : Prop := (a.1 ≤ b.1)%string.

Global Instance key_le_dec : RelDecision key_le.
Proof. intros a b; unfold key_le; apply _. Defined.

(** [store.getAll()]: every record, ascending by primary key. *)
Definition getAll (m : gmap string V) : list V :=
  (merge_sort key_le (map_to_list m)).*2.

(** [store.get(key)] *)
Definition get (k : string) (m : gmap string V) : option V := m !! k.

(** [store.put(value, key)]: insert or overwrite under [k]. *)
Definition put (k : string) (v : V) (m : gmap string V) : gmap string V :=
  <[k := v]> m.

(** [store.delete(key)] *)
Definition delete (k : string) (m : gmap string V) : gmap string V :=
  base.delete k m.

(** [store.clear()] *)
Definition clear (m : gmap string V) : gmap string V := ∅.

(** A unique index rejects a record whose index key is already present. *)
Definition index_taken (idx : V → string) (v : V) (m : gmap string V) : bool :=
  existsb (λ r, String.eqb (idx r) (idx v)) (getAll m).

(** [store.add(value)]: fails with [ConstraintError] when the primary key
    exists or a unique index would hold a duplicate; nothing is written
    then. *)
Definition add (uniques : list (V → string)) (k : string) (v : V)
    (m : gmap string V) : DOMException + gmap string V :=
  match m !! k with
  | Some _ => inl ConstraintError
  | None =>
      if existsb (λ idx, index_taken idx v m) uniques
      then inl ConstraintError
      else inr (<[k := v]> m)
  end.

(** [index.get(query)] on a string index: the first record, in
    (index key, primary key) order, whose index key is [q]. *)
Definition getFromIndex (idx : V → string) (q : string)
    (m : gmap string V) : option V :=
  head (filter (λ r, idx r = q) (getAll m)).

(** Order of a numeric index: by index key, ties by primary key. *)
Definition index_le (idx : V → Z) (a b : string * V) : Prop :=
  idx a.2 < idx b.2 ∨ (idx a.2 = idx b.2 ∧ (a.1 ≤ b.1)%string).

Global Instance index_le_dec idx : RelDecision (index_le idx).
Proof. intros a b; unfold index_le; apply _. Defined.

(** [index.getAll()] on a numeric index. *)
Definition getAllFromIndex (idx : V → Z) (m : gmap string V) : list V :=
  (merge_sort (index_le idx) (map_to_list m)).*2.

(** Every record of a [keyPath] store sits under the key it carries. *)
Definition keyed (key : V → string) (m : gmap string V) : Prop :=
  map_Forall (λ k v, key v = k) m.

(** What a unique index guarantees: no two records share the index key. *)
Definition unique_index (idx : V → string) (m : gmap string V) : Prop :=
  ∀ k1 k2 v1 v2,
    m !! k1 = Some v1 → m !! k2 = Some v2 → idx v1 = idx v2 → k1 = k2.

End Store.
End IDB.

(** ** The database of [getDB] and the page's runtime *)

Record DB := mkDB {
  users : gmap string User.t;          (* keyPath id; unique by-username, by-email *)
  videos : gmap string Video.t;        (* keyPath id; by-user, by-date *)
  videoBlobs : gmap string Blob.t;     (* out-of-line key: publicId *)
  logs : gmap string Log.t;            (* keyPath id; by-type, by-date *)
  session : gmap string Session.t }.   (* keyPath userId *)

(** What the upgrade callback of [openDB] creates on first use. *)
Definition emptyDB : DB := mkDB ∅ ∅ ∅ ∅ ∅.

Definition set_users (f : gmap string User.t → gmap string User.t) (d : DB) : DB :=
  mkDB (f (users d)) (videos d) (videoBlobs d) (logs d) (session d).
Definition set_videos (f : gmap string Video.t → gmap string Video.t) (d : DB) : DB :=
  mkDB (users d) (f (videos d)) (videoBlobs d) (logs d) (session d).
Definition set_videoBlobs (f : gmap string Blob.t → gmap string Blob.t) (d : DB) : DB :=
  mkDB (users d) (videos d) (f (videoBlobs d)) (logs d) (session d).
Definition set_logs (f : gmap string Log.t → gmap string Log.t) (d : DB) : DB :=
  mkDB (users d) (videos d) (videoBlobs d) (f (logs d)) (session d).
Definition set_session (f : gmap string Session.t → gmap string Session.t) (d : DB) : DB :=
  mkDB (users d) (videos d) (videoBlobs d) (logs d) (f (session d)).

(** Toasts, console lines, navigation and timers are recorded in order. *)
Inductive Variant := Default | Destructive.

Inductive Effect :=
| Toast (title description : string) (variant : Variant)
| ConsoleError (msg : string)
| ConsoleWarn (msg : string)
| Navigate (path : string)
| Sleep (ms : Z).

(** Readings of the runtime, indexed by the number of readings made so far.
    [randomUUID_at] never repeats a value. *)
Class Runtime := {
  randomUUID_at : nat → string;
  now_at : nat → Z;
  bcrypt_salt_at : nat → string;
  bcrypt_hash : string → string → string;      (* password, salt *)
  bcrypt_compare : string → string → bool;     (* password, stored hash *)
  (** what the page's other pending work does to the database while the
      running handler waits in a timer *)
  while_asleep : nat → DB → DB;
  (** the answer of the user to [window.confirm] *)
  confirm_at : nat → bool;
  randomUUID_inj : Inj (=) (=) randomUUID_at }.

Record World := mkWorld {
  db : DB;
  tick : nat;
  out : list Effect }.

Definition initial : World := mkWorld emptyDB 0 [].

(** ** A state-and-exception monad for the asynchronous functions

    A rejected promise (or a throw) keeps the writes made before it. *)

Inductive Res (A : Type) := Ok (a : A) | Throw (e : DOMException).
Arguments Ok {A} a.
Arguments Throw {A} e.

Definition M (A : Type) : Type := World → Res A * World.

Definition ret {A} (a : A) : M A := λ w, (Ok a, w).
Definition bind {A B} (m : M A) (k : A → M B) : M B :=
  λ w, match m w with
       | (Ok a, w') => k a w'
       | (Throw e, w') => (Throw e, w')
       end.
Definition throw {A} (e : DOMException) : M A := λ w, (Throw e, w).
Definition try_catch {A} (m : M A) (h : DOMException → M A) : M A :=
  λ w, match m w with
       | (Ok a, w') => (Ok a, w')
       | (Throw e, w') => h e w'
       end.

Declare Scope js_scope.
Delimit Scope js_scope with js.
Notation "x <- m ;; k" := (bind m (λ x, k))
  (at level 100, m at next level, right associativity) : js_scope.
Notation "m ;;; k" := (bind m (λ _, k))
  (at level 100, right associativity) : js_scope.
Local Open Scope js_scope.

Definition getsDB {A} (f : DB → A) : M A := λ w, (Ok (f (db w)), w).
Definition modifyDB (f : DB → DB) : M unit :=
  λ w, (Ok tt, mkWorld (f (db w)) (tick w) (out w)).
Definition emit (e : Effect) : M unit :=
  λ w, (Ok tt, mkWorld (db w) (tick w) (out w ++ [e])).
Definition reading {A} (src : nat → A) : M A :=
  λ w, (Ok (src (tick w)), mkWorld (db w) (S (tick w)) (out w)).

(** Lift the outcome of [IDB.add] on one store. *)
Definition addTo {V} (sel : DB → gmap string V)
    (upd : (gmap string V → gmap string V) → DB → DB)
    (uniques : list (V → string)) (k : string) (v : V) : M unit :=
  λ w, match IDB.add uniques k v (sel (db w)) with
       | inl e => (Throw e, w)
       | inr m => (Ok tt, mkWorld (upd (λ _, m) (db w)) (tick w) (out w))
       end.

Section Program.
Context `{RT : Runtime}.

Definition randomUUID : M string := reading randomUUID_at.
Definition Date_now : M Z := reading now_at.

(** [await new Promise(res => setTimeout(res, ms))] *)
Definition sleep (ms : Z) : M unit :=
  λ w, (Ok tt, mkWorld (while_asleep (tick w) (db w)) (S (tick w))
                       (out w ++ [Sleep ms])).

(** ** [utils/idb.ts] *)

Definition createUser (user : User.t) : M unit :=
  addTo users set_users [User.username; User.email] (User.id user) user.

Definition getUserByUsername (username : string) : M (option User.t) :=
  getsDB (λ d, IDB.getFromIndex User.username username (users d)).

Definition getUserById (id : string) : M (option User.t) :=
  getsDB (λ d, IDB.get id (users d)).

Definition saveVideo (video : Video.t) : M unit :=
  addTo videos set_videos [] (Video.id video) video.

Definition saveVideoBlob (publicId : string) (blob : Blob.t) : M unit :=
  modifyDB (set_videoBlobs (IDB.put publicId blob)).

Definition getVideoBlob (publicId : string) : M (option Blob.t) :=
  getsDB (λ d, IDB.get publicId (videoBlobs d)).

Definition deleteVideoBlob (publicId : string) : M unit :=
  modifyDB (set_videoBlobs (IDB.delete publicId)).

Definition getAllVideos : M (list Video.t) :=
  getsDB (λ d, IDB.getAllFromIndex Video.uploadedAt (videos d)).

Definition deleteVideo (id : string) : M unit :=
  modifyDB (set_videos (IDB.delete id)).

Definition updateVideo (video : Video.t) : M unit :=
  modifyDB (set_videos (IDB.put (Video.id video) video)).

Definition addLog (type : LogType.t) (message : string)
    (metadata : option (list (string * MetaValue))) : M unit :=
  id <- randomUUID ;;
  timestamp <- Date_now ;;
  let fullLog := Log.mk id type message timestamp metadata in
  addTo logs set_logs [] (Log.id fullLog) fullLog.

Definition getAllLogs : M (list Log.t) :=
  getsDB (λ d, IDB.getAllFromIndex Log.timestamp (logs d)).

Definition saveSession (userId : string) : M unit :=
  timestamp <- Date_now ;;
  let s := Session.mk userId timestamp in
  modifyDB (set_session (IDB.put (Session.userId s) s)).

Definition getSession : M (option Session.t) :=
  sessions <- getsDB (λ d, IDB.getAll (session d)) ;;
  ret (head sessions).

Definition clearSession : M unit :=
  modifyDB (set_session IDB.clear).

(** ** [utils/auth.ts] *)

Record AuthResult := mkAuthResult {
  success : bool;
  message : string;
  user : option User.t }.

Definition signup (username email password : string) : M AuthResult :=
  try_catch
    (existingUser <- getUserByUsername username ;;
     match existingUser with
     | Some _ => ret (mkAuthResult false "Username already exists" None)
     | None =>
         salt <- reading bcrypt_salt_at ;;
         let passwordHash := bcrypt_hash password salt in
         id <- randomUUID ;;
         createdAt <- Date_now ;;
         let user := User.mk id username email passwordHash None None createdAt None in
         createUser user ;;;
         addLog LogType.signup ("User " +:+ username +:+ " signed up") None ;;;
         ret (mkAuthResult true "Account created successfully" (Some user))
     end)
    (λ error,
       emit (ConsoleError "Signup error:") ;;;
       ret (mkAuthResult false "Failed to create account" None)).

Definition login (username password : string) : M AuthResult :=
  try_catch
    (user <- getUserByUsername username ;;
     match user with
     | None => ret (mkAuthResult false "Invalid username or password" None)
     | Some user =>
         if negb (bcrypt_compare password (User.passwordHash user))
         then ret (mkAuthResult false "Invalid username or password" None)
         else
           saveSession (User.id user) ;;;
           addLog LogType.login ("User " +:+ username +:+ " logged in")
                  (Some [("userId", MetaStr (User.id user))]) ;;;
           ret (mkAuthResult true "Login successful" (Some user))
     end)
    (λ error,
       emit (ConsoleError "Login error:") ;;;
       ret (mkAuthResult false "Login failed" None)).

Definition logout : M unit :=
  session <- getSession ;;
  match session with
  | Some s => addLog LogType.logout "User logged out"
                     (Some [("userId", MetaStr (Session.userId s))])
  | None => ret tt
  end ;;;
  clearSession.

Definition getCurrentUser : M (option User.t) :=
  try_catch
    (session <- getSession ;;
     match session with
     | None => ret None
     | Some s => getUserById (Session.userId s)
     end)
    (λ error, emit (ConsoleError "Get current user error:") ;;; ret None).

Definition isAuthenticated : M bool :=
  session <- getSession ;;
  ret (bool_decide (is_Some session)).

End Program.

(** ** [utils/cloudinary.ts]: demo-mode ingestion *)

Record CloudinaryUploadResponse := mkResponse {
  secure_url : string;
  public_id : string;
  format : string;
  duration : Z;
  width : Z;
  height : Z;
  bytes : Z;
  thumbnail_url : string }.

(** What the detached [<video>] element and the canvas report in the
    [onseeked] handler.  The duration is only carried along. *)
Record Decoded := mkDecoded {
  video_duration : Z;
  videoWidth : Z;
  videoHeight : Z;
  toDataURL : string }.

Definition CLOUDINARY_CLOUD_NAME : string := "YOUR_CLOUD_NAME".
Definition CLOUDINARY_UPLOAD_PRESET : string := "YOUR_UPLOAD_PRESET".

(** Demo mode: no real credentials. *)
Definition isDemoMode : bool :=
  String.eqb CLOUDINARY_CLOUD_NAME "YOUR_CLOUD_NAME"
  || String.eqb CLOUDINARY_UPLOAD_PRESET "YOUR_UPLOAD_PRESET".

(** A promise that nothing rejects either settles with a value or stays
    pending for ever; the [await] of a pending promise never resumes. *)
Inductive Awaited (A : Type) := Settled (a : A) | Pending.
Arguments Settled {A} a.
Arguments Pending {A}.

(** The browser's part in an ingestion, which the code does not decide.
    - [decodes file]: the readings of the detached [<video>] element and of
      the canvas once the metadata of [file] has loaded and the seek to 0.1s
      is done; [None] when the browser cannot decode [file], so that
      [onseeked] never fires (the element is given no [onerror] handler).
    - [refuses blob]: the exception with which the storage engine rejects
      the [put] of [blob] into [videoBlobs]; [None] when it stores the
      blob. *)
Record Browser := mkBrowser {
  decodes : File.t → option Decoded;
  refuses : Blob.t → option DOMException }.

Section Ingest.
Context `{RT : Runtime}.

(** The interval callback: [progress += 10], report, stop at 100. *)
Fixpoint simulateProgress (ticks : nat) (progress : Z)
    (onProgress : option (Z → World → World)) : M Z :=
  match ticks with
  | O => ret progress
  | S k =>
      let progress := progress + 10 in
      (λ w, (Ok tt, match onProgress with Some f => f progress w | None => w end)) ;;;
      if bool_decide (100 ≤ progress)%Z then ret progress
      else simulateProgress k progress onProgress
  end.

(** [file.type.split('/')[1] || 'mp4'] *)
Definition formatOf (type : string) : string :=
  match JsString.split type "/" !! 1%nat with
  | Some sub => if JsString.truthy sub then sub else "mp4"
  | None => "mp4"
  end.

(** [resolve] is called in [video.onseeked] only: when that event never
    comes the promise stays pending, after the ten progress reports.  The
    [put] of the blob is the engine's to refuse; the [catch] around it only
    warns. *)
Definition mockUpload (file : File.t) (onProgress : option (Z → World → World))
    (browser : Browser) : M (Awaited CloudinaryUploadResponse) :=
  simulateProgress 10 0 onProgress ;;;
  match decodes browser file with
  | None => ret Pending
  | Some media =>
      let thumbnailUrl := toDataURL media in
      now <- Date_now ;;
      let publicId := "local_" +:+ pretty now in
      try_catch (match refuses browser (File.blob file) with
                 | Some e => throw e
                 | None => saveVideoBlob publicId (File.blob file)
                 end)
                (λ e, emit (ConsoleWarn "Failed to save video blob to IndexedDB")) ;;;
      let stableUrl := "local://" +:+ publicId in
      ret (Settled
             (mkResponse stableUrl publicId (formatOf (Blob.type (File.blob file)))
                (video_duration media) (videoWidth media) (videoHeight media)
                (File.size file) thumbnailUrl))
  end.

(** The entry point.  [remote] stands for the XMLHttpRequest branch, which is
    taken only when both credentials have been replaced. *)
Definition uploadVideoToCloudinary (remote : M (Awaited CloudinaryUploadResponse))
    (file : File.t) (onProgress : option (Z → World → World))
    (browser : Browser) : M (Awaited CloudinaryUploadResponse) :=
  if isDemoMode then mockUpload file onProgress browser else remote.

End Ingest.

(** ** [pages/Watch.tsx] *)

Module Watch.

(** What the [<video>] element plays: a URL given as is, or the object URL
    made from a blob. *)
Inductive MediaSrc := SrcUrl (url : string) | SrcObjectURL (b : Blob.t).

(** The component's state; [videoRef] is [None] while no [<video>] element
    is mounted. *)
Record State := mkState {
  video : option Video.t;
  relatedVideos : list Video.t;
  comment : string;
  loading : bool;
  liked : bool;
  videoError : bool;
  videoRef : option MediaSrc }.

Definition setVideo (v : Video.t) (st : State) : State :=
  mkState (Some v) (relatedVideos st) (comment st) (loading st) (liked st)
          (videoError st) (videoRef st).
Definition setRelatedVideos (l : list Video.t) (st : State) : State :=
  mkState (video st) l (comment st) (loading st) (liked st)
          (videoError st) (videoRef st).
Definition setComment (c : string) (st : State) : State :=
  mkState (video st) (relatedVideos st) c (loading st) (liked st)
          (videoError st) (videoRef st).
Definition setLoading (b : bool) (st : State) : State :=
  mkState (video st) (relatedVideos st) (comment st) b (liked st)
          (videoError st) (videoRef st).
Definition setLiked (b : bool) (st : State) : State :=
  mkState (video st) (relatedVideos st) (comment st) (loading st) b
          (videoError st) (videoRef st).
Definition setVideoError (b : bool) (st : State) : State :=
  mkState (video st) (relatedVideos st) (comment st) (loading st) (liked st)
          b (videoRef st).
(** [if (videoRef.current) videoRef.current.src = s] *)
Definition setSrc (s : MediaSrc) (st : State) : State :=
  mkState (video st) (relatedVideos st) (comment st) (loading st) (liked st)
          (videoError st)
          (match videoRef st with Some _ => Some s | None => None end).

Section Handlers.
Context `{RT : Runtime}.

Definition loadVideo (videoId : option string) (st : State) : M State :=
  match videoId with
  | None => ret st
  | Some videoId =>
      if negb (JsString.truthy videoId) then ret st
      else
        st' <- try_catch
          (allVideos <- getAllVideos ;;
           let currentVideo :=
             find (λ v, String.eqb (Video.id v) videoId) allVideos in
           match currentVideo with
           | Some currentVideo =>
               let updatedVideo :=
                 Video.with_views (Video.views currentVideo + 1) currentVideo in
               updateVideo updatedVideo ;;;
               addLog LogType.view
                 ("Watched video: " +:+ Video.caption currentVideo)
                 (Some [("videoId", MetaStr videoId)]) ;;;
               let related :=
                 take 6 (List.filter
                           (λ v, negb (String.eqb (Video.id v) videoId))
                           allVideos) in
               ret (setRelatedVideos related (setVideo updatedVideo st))
           | None => ret st
           end)
          (λ error, emit (ConsoleError "Error loading video:") ;;; ret st) ;;
        ret (setLoading false st')
  end.

Definition handleLike (user : option User.t) (st : State) : M State :=
  match video st, user with
  | Some video, Some _ =>
      let updatedVideo :=
        Video.with_likes
          (if liked st then Video.likes video - 1 else Video.likes video + 1)
          video in
      updateVideo updatedVideo ;;;
      addLog LogType.like
        ((if liked st then "Unliked" else "Liked") +:+ " video: "
           +:+ Video.caption video)
        (Some [("videoId", MetaStr (Video.id video))]) ;;;
      let st' := setLiked (negb (liked st)) (setVideo updatedVideo st) in
      (if negb (liked st)
       then emit (Toast "Liked!" "Added to your liked videos" Default)
       else ret tt) ;;;
      ret st'
  | _, _ => ret st
  end.

Definition handleComment (user : option User.t) (st : State) : M State :=
  match video st, user with
  | Some video, Some user =>
      if negb (JsString.truthy (JsString.trim (comment st))) then ret st
      else
        id <- randomUUID ;;
        timestamp <- Date_now ;;
        let newComment :=
          Comment.mk id (User.id user) (User.username user)
                     (JsString.trim (comment st)) timestamp in
        let updatedVideo :=
          Video.with_comments (Video.comments video ++ [newComment]) video in
        updateVideo updatedVideo ;;;
        addLog LogType.comment
          ("Commented on video: " +:+ Video.caption video)
          (Some [("videoId", MetaStr (Video.id video))]) ;;;
        emit (Toast "Comment posted!" "Your comment has been added" Default) ;;;
        ret (setComment "" (setVideo updatedVideo st))
  | _, _ => ret st
  end.

Definition handleDelete (user : option User.t) (st : State) : M unit :=
  match video st, user with
  | Some video, Some user =>
      if negb (String.eqb (User.id user) (Video.userId video)) then
        emit (Toast "Permission denied" "You can only delete your own videos"
                    Destructive)
      else
        ok <- reading confirm_at ;;
        if negb ok then ret tt
        else
          try_catch
            ((if JsString.startsWith (Video.cloudinaryUrl video) "local://"
              then
                let publicId :=
                  JsString.replace (Video.cloudinaryUrl video) "local://" "" in
                try_catch (deleteVideoBlob publicId)
                  (λ e, emit (ConsoleWarn "Failed to delete local video blob"))
              else ret tt) ;;;
             deleteVideo (Video.id video) ;;;
             addLog LogType.delete
               ("Deleted video: " +:+ Video.caption video)
               (Some [("videoId", MetaStr (Video.id video))]) ;;;
             emit (Toast "Video deleted" "The video has been removed" Default) ;;;
             emit (Navigate "/feed"))
            (λ e,
               emit (ConsoleError "Failed to delete video") ;;;
               emit (Toast "Delete failed"
                           "Could not delete the video. Try again."
                           Destructive))
  | _, _ => ret tt
  end.

Definition maxAttempts : nat := 3.

(** The retry loop of [resolveLocalUrl]:
    [for (attempt = 1; attempt <= maxAttempts; attempt++)], with
    [remaining = maxAttempts + 1 - attempt]. *)
Fixpoint fetchBlob (remaining : nat) (attempt : Z) (publicId : string)
    : M (option Blob.t) :=
  match remaining with
  | O => ret None
  | S r =>
      blob <- getVideoBlob publicId ;;
      match blob with
      | Some b => ret (Some b)
      | None => sleep (250 * attempt) ;;; fetchBlob r (attempt + 1) publicId
      end
  end.

(** The effect body; the second component is [objectUrl], the handle the
    cleanup function revokes. *)
Definition resolveLocalUrl (st : State) : M (State * option Blob.t) :=
  match video st with
  | None => ret (st, None)
  | Some video =>
      try_catch
        (if JsString.startsWith (Video.cloudinaryUrl video) "local://" then
           let publicId :=
             JsString.replace (Video.cloudinaryUrl video) "local://" "" in
           blob <- fetchBlob maxAttempts 1 publicId ;;
           match blob with
           | Some b =>
               ret (setVideoError false (setSrc (SrcObjectURL b) st), Some b)
           | None =>
               emit (ConsoleWarn ("No local video blob found for " +:+ publicId)) ;;;
               emit (Toast "Video not available"
                       "This demo video blob is missing. Try re-uploading the video or use Cloudinary for persistent hosting."
                       Destructive) ;;;
               ret (setVideoError true st, None)
           end
         else
           ret (setSrc (SrcUrl (Video.cloudinaryUrl video)) st, None))
        (λ e,
           emit (ConsoleError "Failed to resolve local video blob:") ;;;
           ret (setVideoError true st, None))
  end.

End Handlers.

(** The page plays the object URL of the fetched blob. *)
Definition found (st : State) (b : Blob.t) : State * option Blob.t :=
  (setVideoError false (setSrc (SrcObjectURL b) st), Some b).


(** What the user is told when the blob is missing. *)
Definition unavailable (publicId : string) : list Effect :=
  [ConsoleWarn ("No local video blob found for " +:+ publicId);
   Toast "Video not available"
     "This demo video blob is missing. Try re-uploading the video or use Cloudinary for persistent hosting."
     Destructive].

(** The notice of a refused delete. *)
Definition permissionDenied : Effect :=
  Toast "Permission denied" "You can only delete your own videos" Destructive.

End Watch.

(** ** A small runtime to run the programs on

    UUIDs are numbered, the clock advances by one millisecond per reading,
    the hash is the salt followed by the password. *)

Definition demo_compare (password hash : string) : bool :=
  String.eqb hash ("salt$" +:+ password).

Definition demo_uuid (n : nat) : string := "uuid-" +:+ pretty n.

Lemma demo_uuid_inj : Inj (=) (=) demo_uuid.
Proof.
  intros x y H. unfold demo_uuid in H.
  by apply (inj (String.app "uuid-")), (inj pretty) in H.
Qed.

Definition demoRuntime : Runtime := {|
  randomUUID_at := demo_uuid;
  now_at n := 1700000000000 + Z.of_nat n;
  bcrypt_salt_at n := "salt";
  bcrypt_hash password salt := salt +:+ "$" +:+ password;
  bcrypt_compare := demo_compare;
  while_asleep n d := d;
  confirm_at n := true;
  randomUUID_inj := demo_uuid_inj |}.

Definition exec {A} (m : M A) (w : World) : World := (m w).2.

(** ** Further code of the sources

    The rest of [utils/idb], the feed, upload, logs and profile pages, the
    authentication context, the route guard and the navigation bar.  The
    states of the pages keep the fields their handlers decide on; progress
    bars, previews and animation flags are left out. *)

(** [index.getAll(query)] on a string index: the records whose index key is
    [q], ascending by primary key. *)
Definition getAllFromIndexKey {V} (idx : V → string) (q : string)
    (m : gmap string V) : list V :=
  filter (λ r, idx r = q) (IDB.getAll m).

(** [array.reduce((sum, v) => sum + f(v), 0)] *)
Definition sumOf {A} (f : A → Z) (l : list A) : Z :=
  fold_left (λ sum v, sum + f v) l 0.

Section MoreIdb.
Context `{RT : Runtime}.

Definition getVideosByUser (userId : string) : M (list Video.t) :=
  getsDB (λ d, getAllFromIndexKey Video.userId userId (videos d)).

End MoreIdb.

(** *** [pages/Feed.tsx] *)

Module Feed.

Record State := mkState {
  shown : list Video.t;      (* the [videos] state *)
  loading : bool }.

Section Handlers.
Context `{RT : Runtime}.

Definition loadVideos (st : State) : M State :=
  st' <- try_catch
    (allVideos <- getAllVideos ;;
     ret (mkState (reverse allVideos) (loading st)))
    (λ error, emit (ConsoleError "Error loading videos:") ;;; ret st) ;;
  ret (mkState (shown st') false).

Definition handleLike (video : Video.t) (st : State) : M State :=
  let updatedVideo := Video.with_likes (Video.likes video + 1) video in
  updateVideo updatedVideo ;;;
  addLog LogType.like ("Liked video: " +:+ Video.caption video)
         (Some [("videoId", MetaStr (Video.id video))]) ;;;
  ret (mkState
         (map (λ v, if String.eqb (Video.id v) (Video.id video)
                    then updatedVideo else v) (shown st))
         (loading st)).

End Handlers.
End Feed.

(** *** [pages/Profile.tsx] and the per-user views of [pages/Analytics.tsx] *)

Module Profile.

Record State := mkState {
  shown : list Video.t;      (* the [videos] state *)
  loading : bool }.

Section Handlers.
Context `{RT : Runtime}.

Definition loadUserVideos (user : option User.t) (st : State) : M State :=
  match user with
  | None => ret st
  | Some user =>
      st' <- try_catch
        (userVideos <- getVideosByUser (User.id user) ;;
         ret (mkState (reverse userVideos) (loading st)))
        (λ error, emit (ConsoleError "Error loading user videos:") ;;; ret st) ;;
      ret (mkState (shown st') false)
  end.

End Handlers.

Definition totalLikes (st : State) : Z := sumOf Video.likes (shown st).
Definition totalViews (st : State) : Z := sumOf Video.views (shown st).

End Profile.

Module Analytics.

(** [user ? allVideos.filter(v => v.userId === user.id) : allVideos] *)
Definition userVideos (user : option User.t) (allVideos : list Video.t)
    : list Video.t :=
  match user with
  | Some user =>
      List.filter (λ v, String.eqb (Video.userId v) (User.id user)) allVideos
  | None => allVideos
  end.

Definition totalViews (videos : list Video.t) : Z := sumOf Video.views videos.
Definition totalLikes (videos : list Video.t) : Z := sumOf Video.likes videos.
Definition totalComments (videos : list Video.t) : Z :=
  sumOf (λ v, Z.of_nat (length (Video.comments v))) videos.

End Analytics.

(** *** [pages/Logs.tsx] *)

Module Logs.

Record State := mkState {
  shown : list Log.t;        (* the [logs] state *)
  loading : bool }.

Section Handlers.
Context `{RT : Runtime}.

Definition loadLogs (st : State) : M State :=
  st' <- try_catch
    (allLogs <- getAllLogs ;;
     ret (mkState (reverse allLogs) (loading st)))
    (λ error, emit (ConsoleError "Error loading logs:") ;;; ret st) ;;
  ret (mkState (shown st') false).

Definition clearLogs (st : State) : M State :=
  try_catch
    (modifyDB (set_logs IDB.clear) ;;;
     emit (Toast "Logs Cleared" "All activity logs have been removed." Default) ;;;
     ret (mkState [] (loading st)))
    (λ error,
       emit (Toast "Error" "Failed to clear logs" Destructive) ;;; ret st).

End Handlers.
End Logs.

(** *** [pages/Search.tsx] *)

Module Search.

(** [s.toLowerCase()] on code units below 256: A-Z and the accented capitals
    (192-222, without the multiplication sign 215) move up by 32. *)
Definition lowerChar (c : ascii) : ascii :=
  let n := nat_of_ascii c in
  if ((65 <=? n) && (n <=? 90)
      || (192 <=? n) && (n <=? 222) && negb (n =? 215))%nat
  then ascii_of_nat (n + 32) else c.

Fixpoint toLowerCase (s : string) : string :=
  match s with
  | EmptyString => EmptyString
  | String c s' => String (lowerChar c) (toLowerCase s')
  end.

Record State := mkState {
  query : string;
  allVideos : list Video.t;
  filteredVideos : list Video.t }.

(** The test of the filter. *)
Definition matches (lowercaseQuery : string) (video : Video.t) : bool :=
  JsString.includes (toLowerCase (Video.caption video)) lowercaseQuery
  || JsString.includes (toLowerCase (Video.username video)) lowercaseQuery
  || existsb (λ tag, JsString.includes (toLowerCase tag) lowercaseQuery)
             (Video.tags video).

Section Handlers.
Context `{RT : Runtime}.

(** The effect that runs when the query or the list of videos changes.  The
    [addLog] is not awaited: a rejection of it goes unhandled. *)
Definition onQueryChange (st : State) : M State :=
  if JsString.truthy (JsString.trim (query st)) then
    let lowercaseQuery := toLowerCase (query st) in
    let results := List.filter (matches lowercaseQuery) (allVideos st) in
    (if (2 <? String.length (query st))%nat then
       try_catch
         (addLog LogType.search ("Searched for: " +:+ query st)
            (Some [("query", MetaStr (query st));
                   ("resultsCount", MetaNum (Z.of_nat (length results)))]))
         (λ e, ret tt)
     else ret tt) ;;;
    ret (mkState (query st) (allVideos st) results)
  else ret (mkState (query st) (allVideos st) (allVideos st)).

Definition loadVideos (st : State) : M State :=
  videos <- getAllVideos ;;
  ret (mkState (query st) videos (filteredVideos st)).

End Handlers.
End Search.

(** *** [pages/Upload.tsx] *)

Module Upload.

Record State := mkState {
  file : option File.t;
  caption : string;
  tags : string;
  uploading : bool }.

(** [tags.split(',').map(t => t.trim()).filter(Boolean)] *)
Definition parseTags (tags : string) : list string :=
  List.filter JsString.truthy (map JsString.trim (JsString.split tags ",")).

(** How a run of [handleUpload] ends: it returns, leaving the form in [st]
    and the [timers] it has set and not awaited
    ([setTimeout(() => navigate('/feed'), 1000)]), or it waits for ever at
    its [await], the form staying in [st]. *)
Inductive Outcome :=
| Returned (st : State) (timers : list (Z * Effect))
| Waiting (st : State).

Section Handlers.
Context `{RT : Runtime}.

(** [handleUpload] with the upload awaited in [browser].  The handler
    returns, unless the upload it awaits stays pending: then neither the
    [catch] nor the [finally] runs. *)
Definition handleUpload (user : option User.t) (browser : Browser)
    (remote : M (Awaited CloudinaryUploadResponse)) (st : State) : M Outcome :=
  match file st, user with
  | Some f, Some user =>
      if negb (JsString.truthy (JsString.trim (caption st))) then
        emit (Toast "Caption required" "Please add a caption for your video"
                    Destructive) ;;;
        ret (Returned st [])
      else
        (* setUploading(true) *)
        let busy := mkState (file st) (caption st) (tags st) true in
        r <- try_catch
          (awaited <-
             uploadVideoToCloudinary remote f (Some (λ _ w, w)) browser ;;
           match awaited with
           | Pending => ret (Waiting busy)
           | Settled cloudinaryResponse =>
               id <- randomUUID ;;
               uploadedAt <- Date_now ;;
               let video :=
                 Video.mk id (User.id user) (User.username user)
                   (secure_url cloudinaryResponse)
                   (thumbnail_url cloudinaryResponse)
                   (JsString.trim (caption st))
                   (parseTags (tags st))
                   (duration cloudinaryResponse)
                   (pretty (width cloudinaryResponse) +:+ "x"
                      +:+ pretty (height cloudinaryResponse))
                   0 [] 0 uploadedAt in
               saveVideo video ;;;
               addLog LogType.upload ("Uploaded video: " +:+ caption st)
                 (Some [("videoId", MetaStr (Video.id video));
                        ("duration", MetaNum (Video.duration video))]) ;;;
               emit (Toast "Upload successful!" "Your video has been uploaded"
                           Default) ;;;
               ret (Returned (mkState None "" "" true) [(1000, Navigate "/feed")])
           end)
          (λ error,
             emit (ConsoleError "Upload error:") ;;;
             emit (Toast "Upload failed"
                         "Failed to upload video. Please try again."
                         Destructive) ;;;
             ret (Returned busy [])) ;;
        match r with
        | Returned st' timers =>
            ret (Returned (mkState (file st') (caption st') (tags st') false) timers)
        | Waiting st' => ret (Waiting st')
        end
  | _, _ => ret (Returned st [])
  end.

End Handlers.
End Upload.

(** *** [context/AuthContext.tsx], [components/ProtectedRoute.tsx],
        [components/Navbar.tsx] *)

Module AuthContext.

Record State := mkState {
  user : option User.t;
  loading : bool;
  isAuth : bool }.

(** Before the first [refreshUser]. *)
Definition initialState : State := mkState None true false.

Section Handlers.
Context `{RT : Runtime}.

Definition refreshUser (st : State) : M State :=
  st' <- try_catch
    (authenticated <- isAuthenticated ;;
     if authenticated then
       currentUser <- getCurrentUser ;;
       ret (mkState currentUser (loading st) authenticated)
     else ret (mkState None (loading st) authenticated))
    (λ error,
       emit (ConsoleError "Error refreshing user:") ;;;
       ret (mkState None (loading st) false)) ;;
  ret (mkState (user st') false (isAuth st')).

Definition login (u : User.t) (st : State) : State :=
  mkState (Some u) (loading st) true.

Definition logout (st : State) : M State :=
  logout ;;;
  ret (mkState None (loading st) false).

End Handlers.
End AuthContext.

Inductive Rendered := Spinner | RedirectTo (path : string) | Children.

Definition ProtectedRoute (ctx : AuthContext.State) : Rendered :=
  if AuthContext.loading ctx then Spinner
  else if negb (AuthContext.isAuth ctx) then RedirectTo "/login"
  else Children.

Module Navbar.
Section Handlers.
Context `{RT : Runtime}.

Definition handleLogout (ctx : AuthContext.State) : M AuthContext.State :=
  ctx' <- AuthContext.logout ctx ;;
  emit (Navigate "/login") ;;;
  ret ctx'.

End Handlers.
End Navbar.

(** ** Vocabulary of the statements *)

(** The one answer of a refused login. *)
Definition invalidCredentials : AuthResult :=
  mkAuthResult false "Invalid username or password" None.

(** The shape of the [users] store every signup keeps: records sit under
    their ids, usernames and emails are unique. *)
Definition users_ok (d : DB) : Prop :=
  IDB.keyed User.id (users d) ∧
  IDB.unique_index User.username (users d) ∧
  IDB.unique_index User.email (users d).

(** The reading of "a user-facing already-exists result". *)
Definition already_exists_result (r : AuthResult) : Prop :=
  success r = false ∧ JsString.includes (message r) "already exists" = true.

(** The reading of "does not re-expose the stored password hash": the
    returned user does not carry the hash of the record stored under its id. *)
Definition hides_password_hash (r : AuthResult) (d : DB) : Prop :=
  ∀ u stored, user r = Some u → users d !! User.id u = Some stored →
              User.passwordHash u ≠ User.passwordHash stored.

(** ** Worlds to run the programs on *)

Section Demo.
Local Existing Instance demoRuntime.
Import Watch.

Definition alice : User.t :=
  User.mk "uuid-1" "alice" "a@x.com" "salt$pw1" None None 1700000000002 None.
Definition bob : User.t :=
  User.mk "uuid-6" "bob" "b@y.com" "salt$pw2" None None 1700000000007 None.

(** After [signup("alice","a@x.com","pw1")] on a fresh database. *)
Definition w_alice : World := exec (signup "alice" "a@x.com" "pw1") initial.
(** ... and then [signup("bob","b@y.com","pw2")]. *)
Definition w_both : World := exec (signup "bob" "b@y.com" "pw2") w_alice.

(** A clip of alice, uploaded in demo mode. *)
Definition clip : Video.t :=
  Video.mk "v1" "uuid-1" "alice" "local://local_1700000000000"
           "data:image/jpeg;base64,AA" "Hi" ["demo"] 12 "640x360"
           0 [] 0 1700000000100.

(** The same clip hosted remotely. *)
Definition hosted : Video.t :=
  Video.mk "v2" "uuid-1" "alice" "https://res.cloudinary.com/demo/video/upload/v2.mp4"
           "https://res.cloudinary.com/demo/video/upload/w_400,h_720,c_fill,f_jpg/v2.mp4"
           "Hi" [] 12 "640x360" 0 [] 0 1700000000200.

(** alice and bob are registered, the clip is stored, its blob is not. *)
Definition w_clip : World :=
  mkWorld (mkDB {[ "uuid-1" := alice; "uuid-6" := bob ]} {[ "v1" := clip ]} ∅ ∅ ∅)
          20 [].

(** The watch page showing [v] with [text] typed into the comment box. *)
Definition page (v : Video.t) (text : string) : State :=
  mkState (Some v) [] text false false false
          (Some (SrcUrl (Video.cloudinaryUrl v))).


(** The watch page coming to [v] from a video that failed to play: the
    error flag is still up and the player still has the source [old]. *)
Definition pageAfter (old : MediaSrc) (v : Video.t) : State :=
  mkState (Some v) [] "" false false true (Some old).

End Demo.



(** ** Vocabulary of the further statements *)

(** Sequences of calls to the authentication service. *)
Inductive AuthOp :=
| OpSignup (username email password : string)
| OpLogin (username password : string)
| OpLogout.

(** The progress values the demo upload reports. *)
Definition demoProgress : list Z := [10; 20; 30; 40; 50; 60; 70; 80; 90; 100].

Section MoreVocabulary.
Context `{RT : Runtime}.
Import Watch.

(** The user record [signup] builds. *)
Definition newUser (w : World) (username email password : string) : User.t :=
  User.mk (randomUUID_at (S (tick w))) username email
          (bcrypt_hash password (bcrypt_salt_at (tick w)))
          None None (now_at (S (S (tick w)))) None.

Definition runOp (op : AuthOp) (w : World) : World :=
  match op with
  | OpSignup username email password => exec (signup username email password) w
  | OpLogin username password => exec (login username password) w
  | OpLogout => exec logout w
  end.

Definition runOps (ops : list AuthOp) (w : World) : World :=
  fold_left (λ w op, runOp op w) ops w.

(** The videos shown beside the one being watched. *)
Definition relatedTo (videoId : string) (allVideos : list Video.t) : list Video.t :=
  take 6 (List.filter (λ v, negb (String.eqb (Video.id v) videoId)) allVideos).

(** [n] loads of the same page, one after the other. *)
Fixpoint reload (n : nat) (videoId : string) (st : State) (w : World)
    : Res State * World :=
  match n with
  | O => (Ok st, w)
  | S n' =>
      match loadVideo (Some videoId) st w with
      | (Ok st', w') => reload n' videoId st' w'
      | (Throw e, w') => (Throw e, w')
      end
  end.

End MoreVocabulary.

Section MoreDemo.
Local Existing Instance demoRuntime.

(** alice is logged in, after both signups. *)
Definition w_in : World := exec (login "alice" "pw1") w_both.

Definition demoFile : File.t :=
  File.mk "clip.mp4" (Blob.mk [Byte.x00; Byte.x01; Byte.x02; Byte.x03] "video/mp4").

Definition demoMedia : Decoded := mkDecoded 12 640 360 "data:image/jpeg;base64,AA".

(** A browser that decodes MP4 and nothing else, with room for every blob. *)
Definition demoBrowser : Browser :=
  mkBrowser (λ f, if String.eqb (Blob.type (File.blob f)) "video/mp4"
                  then Some demoMedia else None)
            (λ _, None).

(** The same browser with its storage quota used up. *)
Definition fullBrowser : Browser :=
  mkBrowser (decodes demoBrowser) (λ _, Some QuotaExceededError).

(** A file the picker accepts ([video/*]) and [demoBrowser] cannot decode. *)
Definition brokenFile : File.t :=
  File.mk "clip.avi" (Blob.mk [Byte.x52; Byte.x49; Byte.x46; Byte.x46] "video/x-msvideo").

(** The video an upload made at [w_clip] is stored as: the clock reads
    1700000000020 when the blob is named. *)
Definition uploaded : Video.t :=
  Video.mk "uuid-21" "uuid-1" "alice" "local://local_1700000000020"
           "data:image/jpeg;base64,AA" "Hi" ["demo"; "first"] 12 "640x360"
           0 [] 0 1700000000022.

Definition uploadForm : Upload.State :=
  Upload.mkState (Some demoFile) "  Hi  " "demo, ,first" false.

End MoreDemo.

(** * Properties *)

(** ** Object stores *)

Section StoreFacts.
Context {V : Type}.
Implicit Types (m : gmap string V) (v : V) (k : string).

Lemma getAll_elem m v : v ∈ IDB.getAll m ↔ ∃ k, m !! k = Some v.
Proof.
  unfold IDB.getAll. rewrite list_elem_of_fmap. split.
  - intros [[k v'] [-> Hin]]. rewrite merge_sort_Permutation in Hin.
    apply elem_of_map_to_list in Hin. eauto.
  - intros [k Hk]. exists (k, v). split; [done|].
    rewrite merge_sort_Permutation. by apply elem_of_map_to_list.
Qed.

Lemma getAllFromIndex_elem (idx : V → Z) m v :
  v ∈ IDB.getAllFromIndex idx m ↔ ∃ k, m !! k = Some v.
Proof.
  unfold IDB.getAllFromIndex. rewrite list_elem_of_fmap. split.
  - intros [[k v'] [-> Hin]]. rewrite merge_sort_Permutation in Hin.
    apply elem_of_map_to_list in Hin. eauto.
  - intros [k Hk]. exists (k, v). split; [done|].
    rewrite merge_sort_Permutation. by apply elem_of_map_to_list.
Qed.

Lemma getAll_length m : length (IDB.getAll m) = size m.
Proof.
  unfold IDB.getAll. rewrite length_fmap, merge_sort_Permutation.
  apply length_map_to_list.
Qed.

Lemma getFromIndex_Some (idx : V → string) q m v :
  IDB.getFromIndex idx q m = Some v → (∃ k, m !! k = Some v) ∧ idx v = q.
Proof.
  unfold IDB.getFromIndex. intros H%head_Some_elem_of.
  apply list_elem_of_filter in H as [Hq Hin]. split; [|done].
  by apply getAll_elem.
Qed.

Lemma getFromIndex_None (idx : V → string) q m :
  (∀ k v, m !! k = Some v → idx v ≠ q) → IDB.getFromIndex idx q m = None.
Proof.
  intros Hno. destruct (IDB.getFromIndex idx q m) as [v|] eqn:E; [|done].
  apply getFromIndex_Some in E as [[k Hk] Hq]. by destruct (Hno k v Hk).
Qed.

Lemma getFromIndex_present (idx : V → string) m k v :
  m !! k = Some v → is_Some (IDB.getFromIndex idx (idx v) m).
Proof.
  intros Hk. unfold IDB.getFromIndex. apply head_is_Some. intros Hnil.
  apply (filter_nil_not_elem_of _ _ v Hnil); [done|].
  apply getAll_elem. eauto.
Qed.

(** When the index key is unique among the stored records, the index read
    returns the stored record itself. *)
Lemma getFromIndex_unique (idx : V → string) m k v :
  m !! k = Some v →
  (∀ k' v', m !! k' = Some v' → idx v' = idx v → v' = v) →
  IDB.getFromIndex idx (idx v) m = Some v.
Proof.
  intros Hk Huniq.
  destruct (getFromIndex_present idx m k v Hk) as [v' Hv'].
  rewrite Hv'. f_equal.
  apply getFromIndex_Some in Hv' as [[k' Hk'] Hq]. eauto.
Qed.

Lemma index_taken_true (idx : V → string) v m k r :
  m !! k = Some r → idx r = idx v → IDB.index_taken idx v m = true.
Proof.
  intros Hk Hq. unfold IDB.index_taken. apply existsb_exists.
  exists r. split.
  - apply list_elem_of_In, getAll_elem. eauto.
  - by apply String.eqb_eq.
Qed.

Lemma index_taken_false (idx : V → string) v m k r :
  IDB.index_taken idx v m = false → m !! k = Some r → idx r ≠ idx v.
Proof.
  intros Hf Hk Hq. by rewrite (index_taken_true idx v m k r) in Hf.
Qed.

Lemma keyed_put key m v : IDB.keyed key m → IDB.keyed key (IDB.put (key v) v m).
Proof. intros Hm. by apply map_Forall_insert_2. Qed.

Lemma keyed_empty key : IDB.keyed key (∅ : gmap string V).
Proof. apply map_Forall_empty. Qed.

Lemma unique_index_empty idx : IDB.unique_index idx (∅ : gmap string V).
Proof. intros k1 k2 v1 v2 H. by rewrite lookup_empty in H. Qed.

Lemma unique_index_same idx m k k' v v' :
  IDB.unique_index idx m → m !! k = Some v → m !! k' = Some v' →
  idx v' = idx v → v' = v.
Proof.
  intros Hu Hk Hk' Heq. rewrite (Hu k' k v' v Hk' Hk Heq) in Hk'. congruence.
Qed.

(** A successful [add] keeps the guarantee of each of its unique indexes. *)
Lemma add_unique_index uniques idx k v m m' :
  idx ∈ uniques → IDB.add uniques k v m = inr m' →
  IDB.unique_index idx m → IDB.unique_index idx m'.
Proof.
  unfold IDB.add. intros Hin. destruct (m !! k) eqn:Hk; [done|].
  destruct (existsb _ uniques) eqn:Hex; [done|]. intros [= <-] Huniq.
  assert (Hfree : IDB.index_taken idx v m = false).
  { destruct (IDB.index_taken idx v m) eqn:E; [|done].
    assert (existsb (λ idx, IDB.index_taken idx v m) uniques = true) as Ht.
    { apply existsb_exists. exists idx. split; [by apply list_elem_of_In|done]. }
    congruence. }
  intros k1 k2 v1 v2 H1 H2 Heq.
  destruct (decide (k1 = k)) as [->|N1], (decide (k2 = k)) as [->|N2];
    [done|..].
  - rewrite lookup_insert_eq in H1. rewrite lookup_insert_ne in H2 by done.
    injection H1 as <-.
    by destruct (index_taken_false idx v m k2 v2 Hfree H2).
  - rewrite lookup_insert_eq in H2. rewrite lookup_insert_ne in H1 by done.
    injection H2 as <-.
    by destruct (index_taken_false idx v m k1 v1 Hfree H1).
  - rewrite lookup_insert_ne in H1, H2 by done. eauto.
Qed.

Lemma add_keyed key uniques v m m' :
  IDB.add uniques (key v) v m = inr m' → IDB.keyed key m → IDB.keyed key m'.
Proof.
  unfold IDB.add. destruct (m !! key v); [done|].
  destruct (existsb _ uniques); [done|]. intros [= <-] Hm.
  by apply map_Forall_insert_2.
Qed.

(** [list.find(r => r.key === k)] over an index read of a IDB.keyed store is
    the lookup of [k]. *)
Lemma find_getAllFromIndex (idx : V → Z) key m k v :
  IDB.keyed key m → m !! k = Some v →
  find (λ r, String.eqb (key r) k) (IDB.getAllFromIndex idx m) = Some v.
Proof.
  intros Hkeyed Hk.
  destruct (find _ _) as [r|] eqn:E.
  - apply find_some in E as [Hin Heq].
    apply String.eqb_eq in Heq.
    apply list_elem_of_In, getAllFromIndex_elem in Hin as [k' Hk'].
    rewrite <- (Hkeyed k' r Hk') in Hk'. rewrite Heq in Hk'. congruence.
  - exfalso. eapply find_none with (x := v) in E.
    + rewrite (Hkeyed k v Hk), String.eqb_refl in E. discriminate.
    + apply list_elem_of_In, getAllFromIndex_elem. eauto.
Qed.

End StoreFacts.

(** ** Logging *)

Section LogFacts.
Context `{RT : Runtime}.

(** [addLog] takes two readings and touches the [logs] store only. *)
Lemma addLog_frame type message metadata w :
  let w' := (addLog type message metadata w).2 in
  users (db w') = users (db w) ∧ videos (db w') = videos (db w) ∧
  videoBlobs (db w') = videoBlobs (db w) ∧ session (db w') = session (db w) ∧
  out w' = out w ∧ tick w' = S (S (tick w)).
Proof.
  unfold addLog, bind, randomUUID, Date_now, reading, addTo, IDB.add; simpl.
  destruct (logs (db w) !! randomUUID_at (tick w)); simpl; auto 10.
Qed.

(** It fails only when the drawn UUID is already a key of [logs]. *)
Lemma addLog_fresh type message metadata w :
  logs (db w) !! randomUUID_at (tick w) = None →
  ∃ w', addLog type message metadata w = (Ok tt, w').
Proof.
  intros Hfresh.
  unfold addLog, bind, randomUUID, Date_now, reading, addTo, IDB.add; simpl.
  rewrite Hfresh; simpl. eauto.
Qed.

Lemma addLog_logs type message metadata w k :
  k ≠ randomUUID_at (tick w) →
  logs (db (addLog type message metadata w).2) !! k = logs (db w) !! k.
Proof.
  intros Hk.
  unfold addLog, bind, randomUUID, Date_now, reading, addTo, IDB.add; simpl.
  destruct (logs (db w) !! randomUUID_at (tick w)); simpl; [done|].
  by rewrite lookup_insert_ne.
Qed.

End LogFacts.

(** Case analysis on the next [addLog] of the goal, together with what it
    leaves untouched. *)
Tactic Notation "addLog_cases" "as" simple_intropattern(frame) :=
  match goal with
  | |- context [addLog ?t ?m ?md ?w0] =>
      pose proof (addLog_frame t m md w0) as frame;
      destruct (addLog t m md w0) as [[[]|?] ?]
  end.

(** ** Authentication *)

Section AuthFacts.
Context `{RT : Runtime}.

(** C3. A login under a username no stored user carries, and a login under
    the username of a stored user with a password that does not verify
    against that user's hash (usernames being unique in the store, as the
    by-username index keeps them), both return the same value: the failure
    with the one generic message "Invalid username or password"; neither
    writes anything. *)
Theorem login_invalid_credentials_generic (w : World) (username password : string) :
  ((∀ k u, users (db w) !! k = Some u → User.username u ≠ username) ∨
   (∃ k u, users (db w) !! k = Some u ∧ User.username u = username ∧
      IDB.unique_index User.username (users (db w)) ∧
      bcrypt_compare password (User.passwordHash u) = false)) →
  login username password w = (Ok invalidCredentials, w).
Proof.
  intros [Hnone | (k & u & Hk & Hname & Huniq & Hcmp)];
    unfold login, try_catch, bind, getUserByUsername, getsDB; simpl.
  - by rewrite getFromIndex_None.
  - rewrite <- Hname, (getFromIndex_unique User.username _ k u Hk).
    + simpl. by rewrite Hcmp.
    + intros k' u' Hk'. by apply (unique_index_same _ _ k k' u u' Huniq).
Qed.

(** A successful login puts the session record under the user's id and
    leaves every record stored under another key where it was. *)
Lemma login_success_session w username password r w' :
  login username password w = (Ok r, w') → success r = true →
  ∃ u, user r = Some u ∧
       session (db w') =
         <[User.id u := Session.mk (User.id u) (now_at (tick w))]> (session (db w)).
Proof.
  unfold login, try_catch, bind, getUserByUsername, getsDB; simpl.
  destruct (IDB.getFromIndex _ _ _) as [u|]; simpl;
    [|intros [= <- <-]; discriminate].
  destruct (bcrypt_compare _ _); simpl; [|intros [= <- <-]; discriminate].
  unfold saveSession, bind, Date_now, reading, modifyDB; simpl.
  addLog_cases as (_ & _ & _ & Hs & _); simpl in *.
  - intros [= <- <-] _. exists u. split; [done|]. by rewrite Hs.
  - intros [= <- <-]; discriminate.
Qed.

(** When [logout] completes, the session store is empty. *)
Lemma logout_clears_session w w' :
  logout w = (Ok tt, w') → session (db w') = ∅.
Proof.
  unfold logout, bind, getSession, getsDB, ret, clearSession, modifyDB; simpl.
  destruct (head _) as [s|]; simpl.
  - destruct (addLog _ _ _ _) as [[[]|e] w1]; simpl; [|discriminate].
    by intros [= <-].
  - by intros [= <-].
Qed.

(** C4. A signup that collides with a stored user on the username or on the
    email returns a failure without a user, and creates no User record and no
    log entry.  A taken username gives "Username already exists" and changes
    nothing at all; a free username with a taken email gives the generic
    "Failed to create account". *)
Theorem signup_collision_rejected (w : World) (username email password : string)
    (k : string) (u : User.t) :
  users (db w) !! k = Some u →
  User.username u = username ∨ User.email u = email →
  ∃ r w', signup username email password w = (Ok r, w') ∧
    success r = false ∧ user r = None ∧
    users (db w') = users (db w) ∧ logs (db w') = logs (db w) ∧
    ((∃ k' u', users (db w) !! k' = Some u' ∧ User.username u' = username) →
       message r = "Username already exists" ∧ w' = w) ∧
    ((∀ k' u', users (db w) !! k' = Some u' → User.username u' ≠ username) →
       message r = "Failed to create account").
Proof.
  intros Hk Hcoll.
  unfold signup, try_catch, bind, getUserByUsername, getsDB; simpl.
  destruct (IDB.getFromIndex User.username username (users (db w)))
    as [u0|] eqn:E; simpl.
  - eexists _, _. split; [done|]. split_and!; try done.
    intros Hfree. apply getFromIndex_Some in E as [[k0 Hk0] Hn0].
    by destruct (Hfree k0 u0 Hk0).
  - assert (Hfree : ∀ k' u', users (db w) !! k' = Some u' →
                             User.username u' ≠ username).
    { intros k' u' Hk' Hn'.
      destruct (getFromIndex_present User.username _ k' u' Hk') as [x Hx].
      rewrite Hn' in Hx. congruence. }
    destruct Hcoll as [Hn | He]; [by destruct (Hfree k u Hk)|].
    unfold createUser, addTo, IDB.add, reading; simpl.
    destruct (users (db w) !! randomUUID_at (S (tick w))); simpl.
    + eexists _, _. split; [done|]. split_and!; try done.
      intros (k' & u' & Hk' & Hn'). by destruct (Hfree k' u' Hk').
    + erewrite (index_taken_true User.email _ _ k u Hk) by done.
      rewrite orb_true_r; simpl.
      eexists _, _. split; [done|]. split_and!; try done.
      intros (k' & u' & Hk' & Hn'). by destruct (Hfree k' u' Hk').
Qed.

(** C2. A successful signup returns the User record it has just stored,
    field for field: the username, the email, and also the password hash
    computed from the password and the drawn salt. *)
Theorem signup_returns_stored_record (w w' : World)
    (username email password : string) (r : AuthResult) :
  signup username email password w = (Ok r, w') →
  success r = true →
  ∃ u, user r = Some u ∧
       users (db w') !! User.id u = Some u ∧
       User.username u = username ∧ User.email u = email ∧
       User.passwordHash u = bcrypt_hash password (bcrypt_salt_at (tick w)).
Proof.
  unfold signup, try_catch, bind, getUserByUsername, getsDB; simpl.
  destruct (IDB.getFromIndex _ _ _) as [u0|]; simpl;
    [intros [= <- <-]; discriminate|].
  unfold createUser, addTo, IDB.add, reading; simpl.
  destruct (users (db w) !! randomUUID_at (S (tick w))); simpl;
    [intros [= <- <-]; discriminate|].
  destruct (_ || _); simpl; [intros [= <- <-]; discriminate|].
  addLog_cases as (Hu & _); simpl in *.
  - intros [= <- <-] _. eexists. split; [done|]. simpl.
    rewrite Hu. simpl. by rewrite lookup_insert_eq.
  - intros [= <- <-]; discriminate.
Qed.

(** [signup] never rejects: every storage error is caught. *)
Lemma signup_returns w username email password :
  ∃ r w', signup username email password w = (Ok r, w').
Proof.
  unfold signup, try_catch, bind, getUserByUsername, getsDB; simpl.
  destruct (IDB.getFromIndex _ _ _) as [u0|]; simpl; eauto.
  unfold createUser, addTo, IDB.add, reading; simpl.
  destruct (users (db w) !! randomUUID_at (S (tick w))); simpl; eauto.
  destruct (_ || _); simpl; eauto.
  destruct (addLog _ _ _ _) as [[[]|e] w1]; simpl; eauto.
Qed.

Lemma users_ok_empty : users_ok emptyDB.
Proof.
  split_and!; [apply keyed_empty | apply unique_index_empty..].
Qed.

Lemma signup_keeps_users_ok w username email password :
  users_ok (db w) → users_ok (db (signup username email password w).2).
Proof.
  intros (Hk & Hn & He).
  unfold signup, try_catch, bind, getUserByUsername, getsDB; simpl.
  destruct (IDB.getFromIndex _ _ _); simpl; [done|].
  unfold createUser, addTo, reading; simpl.
  destruct (IDB.add _ _ _ _) as [e|m'] eqn:Hadd; simpl; [done|].
  addLog_cases as (Hu & _);
    simpl in *; unfold users_ok; rewrite Hu; simpl;
    (split_and!;
     [ exact (add_keyed User.id _ _ _ _ Hadd Hk)
     | refine (add_unique_index _ User.username _ _ _ _ _ Hadd Hn); set_solver
     | refine (add_unique_index _ User.email _ _ _ _ _ Hadd He); set_solver ]).
Qed.

End AuthFacts.

(** ** Scenarios on the demo runtime *)

Section Scenarios.
Local Existing Instance demoRuntime.

Lemma users_w_alice : users (db w_alice) = {[ "uuid-1" := alice ]}.
Proof. vm_compute. reflexivity. Qed.

Lemma signup_alice_run :
  signup "alice" "a@x.com" "pw1" initial =
  (Ok (mkAuthResult true "Account created successfully" (Some alice)), w_alice).
Proof. vm_compute. reflexivity. Qed.

Lemma login_invalid_credentials_witness :
  login "alice" "wrong" w_alice = (Ok invalidCredentials, w_alice) ∧
  login "mallory" "pw1" w_alice = (Ok invalidCredentials, w_alice).
Proof.
  split; apply login_invalid_credentials_generic.
  - right. exists "uuid-1", alice. split_and!.
    + rewrite users_w_alice. apply lookup_singleton_eq.
    + reflexivity.
    + rewrite users_w_alice.
      intros k1 k2 v1 v2 [<- _]%lookup_singleton_Some
             [<- _]%lookup_singleton_Some _. reflexivity.
    + reflexivity.
  - left. intros k u. rewrite users_w_alice.
    intros [_ <-]%lookup_singleton_Some. discriminate.
Defined.

Lemma signup_collision_witness :
  ∃ r w', signup "bob" "a@x.com" "pw2" w_alice = (Ok r, w') ∧
    success r = false ∧ user r = None ∧
    users (db w') = users (db w_alice) ∧ logs (db w') = logs (db w_alice) ∧
    ((∃ k' u', users (db w_alice) !! k' = Some u' ∧ User.username u' = "bob") →
       message r = "Username already exists" ∧ w' = w_alice) ∧
    ((∀ k' u', users (db w_alice) !! k' = Some u' → User.username u' ≠ "bob") →
       message r = "Failed to create account").
Proof.
  apply (signup_collision_rejected w_alice "bob" "a@x.com" "pw2" "uuid-1" alice).
  - rewrite users_w_alice. apply lookup_singleton_eq.
  - right. reflexivity.
Defined.

(** A signup under a free username and alice's email is answered with
    "Failed to create account", which is no already-exists result. *)
Lemma signup_email_collision_generic_failure :
  ∃ r w', signup "bob" "a@x.com" "pw2" w_alice = (Ok r, w') ∧
    (∃ k u, users (db w_alice) !! k = Some u ∧ User.email u = "a@x.com") ∧
    message r = "Failed to create account" ∧
    ¬ already_exists_result r.
Proof.
  eexists _, _. split; [vm_compute; reflexivity|]. split_and!.
  - exists "uuid-1", alice. rewrite users_w_alice.
    split; [apply lookup_singleton_eq | reflexivity].
  - reflexivity.
  - intros [_ H]. vm_compute in H. discriminate.
Qed.

Lemma signup_returns_stored_record_witness :
  ∃ u, Some alice = Some u ∧
       users (db w_alice) !! User.id u = Some u ∧
       User.username u = "alice" ∧ User.email u = "a@x.com" ∧
       User.passwordHash u = bcrypt_hash "pw1" (bcrypt_salt_at (tick initial)).
Proof.
  apply (signup_returns_stored_record initial w_alice "alice" "a@x.com" "pw1"
           (mkAuthResult true "Account created successfully" (Some alice))).
  - apply signup_alice_run.
  - reflexivity.
Defined.

(** The first signup on a fresh database hands the stored hash back. *)
Lemma signup_hands_back_hash :
  ∃ r w', signup "alice" "a@x.com" "pw1" initial = (Ok r, w') ∧
    success r = true ∧ ¬ hides_password_hash r (db w').
Proof.
  eexists _, _. split; [apply signup_alice_run|]. split; [reflexivity|].
  intros H. apply (H alice alice); [reflexivity | | reflexivity].
  simpl. rewrite users_w_alice. apply lookup_singleton_eq.
Qed.

(** C1. alice and bob sign up, alice logs in, then bob logs in without a
    logout in between: both logins succeed, the session store then holds two
    records, and [getSession] still answers with alice's session although
    bob logged in last. *)
Theorem two_logins_two_session_records :
  let w3 := exec (login "alice" "pw1") w_both in
  let w4 := exec (login "bob" "pw2") w3 in
  (login "alice" "pw1" w_both).1 =
    Ok (mkAuthResult true "Login successful" (Some alice)) ∧
  (login "bob" "pw2" w3).1 =
    Ok (mkAuthResult true "Login successful" (Some bob)) ∧
  size (session (db w3)) = 1%nat ∧
  size (session (db w4)) = 2%nat ∧
  (getSession w4).1 = Ok (Some (Session.mk (User.id alice) 1700000000010)) ∧
  (getCurrentUser w4).1 = Ok (Some alice).
Proof. vm_compute. repeat split. Qed.

End Scenarios.

(** ** The watch page *)

Section WatchFacts.
Context `{RT : Runtime}.
Import Watch.

Lemma startsWith_local p : JsString.startsWith ("local://" +:+ p) "local://" = true.
Proof. destruct p; reflexivity. Qed.

Lemma replace_local p : JsString.replace ("local://" +:+ p) "local://" "" = p.
Proof. destruct p; reflexivity. Qed.

(** C5. A delete requested by a user who is not the owner ends with the
    "Permission denied" notice and writes nothing: the database is the same,
    [getAllVideos] answers as before, and the stored video is still in its
    answer, the very same record. *)
Theorem handleDelete_non_owner_denied (w : World) (st : State)
    (u : User.t) (v : Video.t) :
  video st = Some v →
  User.id u ≠ Video.userId v →
  let w' := mkWorld (db w) (tick w) (out w ++ [permissionDenied]) in
  handleDelete (Some u) st w = (Ok tt, w') ∧
  (getAllVideos w').1 = (getAllVideos w).1 ∧
  (videos (db w) !! Video.id v = Some v →
     ∃ l, (getAllVideos w').1 = Ok l ∧ v ∈ l ∧
          videos (db w') !! Video.id v = Some v).
Proof.
  intros Hv Hne w'. unfold handleDelete. rewrite Hv.
  apply String.eqb_neq in Hne. rewrite Hne. simpl. split_and!; try done.
  intros Hstored. eexists. split; [reflexivity|]. split; [|done].
  apply getAllFromIndex_elem. eauto.
Qed.

(** C10. Loading the watch page of a stored video rewrites that one record
    with [views] one higher and every other field as it was; the other
    videos, the users, the blobs and the session are untouched, and the load
    itself always completes. *)
Theorem loadVideo_increments_views_only (w : World) (st : State)
    (videoId : string) (v : Video.t) :
  IDB.keyed Video.id (videos (db w)) →
  videos (db w) !! videoId = Some v →
  videoId ≠ "" →
  ∃ st' w' v', loadVideo (Some videoId) st w = (Ok st', w') ∧
    videos (db w') !! videoId = Some v' ∧
    Video.views v' = Video.views v + 1 ∧
    Video.id v' = Video.id v ∧ Video.userId v' = Video.userId v ∧
    Video.username v' = Video.username v ∧
    Video.cloudinaryUrl v' = Video.cloudinaryUrl v ∧
    Video.thumbnailUrl v' = Video.thumbnailUrl v ∧
    Video.caption v' = Video.caption v ∧ Video.tags v' = Video.tags v ∧
    Video.duration v' = Video.duration v ∧
    Video.resolution v' = Video.resolution v ∧
    Video.likes v' = Video.likes v ∧ Video.comments v' = Video.comments v ∧
    Video.uploadedAt v' = Video.uploadedAt v ∧
    (∀ k, k ≠ videoId → videos (db w') !! k = videos (db w) !! k) ∧
    users (db w') = users (db w) ∧ videoBlobs (db w') = videoBlobs (db w) ∧
    session (db w') = session (db w).
Proof.
  intros Hkeyed Hstored Hne.
  assert (Hid : Video.id v = videoId) by exact (Hkeyed _ _ Hstored).
  unfold loadVideo.
  destruct videoId as [|c videoId']; [done|]. simpl JsString.truthy. simpl negb.
  cbv iota. unfold bind at 1, try_catch, bind at 1, getAllVideos, getsDB. simpl.
  rewrite (find_getAllFromIndex Video.uploadedAt Video.id _ _ v Hkeyed Hstored).
  unfold bind at 1, updateVideo, modifyDB. simpl. unfold bind at 1.
  addLog_cases as (Hu & Hvs & Hb & Hs & _); simpl in *;
    (eexists _, _, _; split; [done|]; simpl; rewrite ?Hu, ?Hvs, ?Hb, ?Hs;
     unfold IDB.put; simpl; rewrite Hid; split; [apply lookup_insert_eq|];
     split_and!; try done; intros k Hk; by apply lookup_insert_ne).
Qed.

(** [{...{...v, likes: n + 1}, likes: (n + 1) - 1}] is [v] again. *)
Lemma with_likes_undo v :
  Video.with_likes (Video.likes v + 1 - 1)
    (Video.with_likes (Video.likes v + 1) v) = v.
Proof. destruct v; unfold Video.with_likes; simpl. f_equal. lia. Qed.

(** C9. With the page showing the stored record, not yet liked, and the
    UUIDs still to be drawn unused as log ids: a like followed by an unlike
    both complete, the stored like count is one higher in between, and
    afterwards the stored record is the original one again. *)
Theorem like_then_unlike_restores_likes (w : World) (st : State)
    (u : User.t) (v : Video.t) :
  video st = Some v →
  liked st = false →
  videos (db w) !! Video.id v = Some v →
  (∀ i, (tick w ≤ i)%nat → logs (db w) !! randomUUID_at i = None) →
  ∃ st1 w1,
    handleLike (Some u) st w = (Ok st1, w1) ∧
    liked st1 = true ∧
    (Video.likes <$> videos (db w1) !! Video.id v) = Some (Video.likes v + 1) ∧
    ∃ st2 w2,
    handleLike (Some u) st1 w1 = (Ok st2, w2) ∧
    liked st2 = false ∧
    video st2 = Some v ∧
    videos (db w2) !! Video.id v = Some v ∧
    (Video.likes <$> videos (db w2) !! Video.id v) = Some (Video.likes v).
Proof.
  intros Hv Hliked Hstored Hfresh.
  unfold handleLike at 1. rewrite Hv, Hliked. cbv iota.
  unfold bind at 1, updateVideo, modifyDB. simpl. unfold bind at 1.
  match goal with |- context [addLog ?t ?m ?md ?w0] =>
    pose proof (addLog_frame t m md w0) as (_ & Hvs & _ & _ & _ & Htick);
    pose proof (λ k, addLog_logs t m md w0 k) as Hlogs;
    destruct (addLog_fresh t m md w0) as [w1 Hrun];
      [simpl; apply Hfresh; lia|] end.
  rewrite Hrun in *. simpl in Hvs, Htick, Hlogs. simpl.
  eexists _, _. split; [reflexivity|]. simpl.
  split; [done|].
  assert (Hmid : videos (db w1) !! Video.id v =
                 Some (Video.with_likes (Video.likes v + 1) v)).
  { rewrite Hvs. apply lookup_insert_eq. }
  split; [by rewrite Hmid|].
  unfold handleLike. simpl. unfold bind at 1, updateVideo, modifyDB. simpl.
  unfold bind at 1.
  match goal with |- context [addLog ?t ?m ?md ?w0] =>
    pose proof (addLog_frame t m md w0) as (_ & Hvs2 & _);
    destruct (addLog_fresh t m md w0) as [w2 Hrun2] end.
  { simpl. rewrite Hlogs.
    - apply Hfresh. lia.
    - intros Heq. apply randomUUID_inj in Heq. lia. }
  rewrite Hrun2 in *. simpl in Hvs2. simpl.
  rewrite with_likes_undo in *.
  eexists _, _. split; [reflexivity|]. split; [done|]. split; [done|].
  assert (Hend : videos (db w2) !! Video.id v = Some v).
  { rewrite Hvs2. apply lookup_insert_eq. }
  split; [done|]. by rewrite Hend.
Qed.

End WatchFacts.

Section CommentFacts.
Context `{RT : Runtime}.
Import Watch.

(** One run of [handleComment] on a text that trims to something: the record
    is rewritten first, then the log entry is added. *)
Lemma handleComment_run (w : World) (st : State) (u : User.t) (v : Video.t) :
  video st = Some v →
  JsString.trim (comment st) ≠ "" →
  let c := Comment.mk (randomUUID_at (tick w)) (User.id u) (User.username u)
                      (JsString.trim (comment st)) (now_at (S (tick w))) in
  let v' := Video.with_comments (Video.comments v ++ [c]) v in
  let logged :=
    addLog LogType.comment ("Commented on video: " +:+ Video.caption v)
      (Some [("videoId", MetaStr (Video.id v))])
      (mkWorld (set_videos (IDB.put (Video.id v') v') (db w))
               (S (S (tick w))) (out w)) in
  handleComment (Some u) st w =
  match logged with
  | (Ok _, w1) =>
      (Ok (setComment "" (setVideo v' st)),
       mkWorld (db w1) (tick w1)
         (out w1 ++ [Toast "Comment posted!" "Your comment has been added" Default]))
  | (Throw e, w1) => (Throw e, w1)
  end.
Proof.
  intros Hv Hne. cbv zeta. unfold handleComment. rewrite Hv.
  destruct (JsString.trim (comment st)) as [|a text'] eqn:Etext; [done|].
  simpl JsString.truthy. simpl negb. cbv iota.
  unfold bind at 1, randomUUID, reading. simpl.
  unfold bind at 1, Date_now, reading. simpl.
  unfold bind at 1, updateVideo, modifyDB. simpl. unfold bind at 1.
  destruct (addLog _ _ _ _) as [[[]|e] w1]; reflexivity.
Qed.

(** C6. Posting a comment whose trimmed text is not empty rewrites the
    stored video with exactly one more comment at the end of its list: the
    comment carries the drawn UUID, the author, the clock reading and the
    TRIMMED text; no other video changes, and when the UUID drawn for the log
    entry is unused the handler completes with the page showing the new
    record and an empty input.  A text that trims to the empty string is
    rejected: nothing changes. *)
Theorem handleComment_appends_trimmed (w : World) (st : State)
    (u : User.t) (v : Video.t) :
  video st = Some v →
  let text := JsString.trim (comment st) in
  let c := Comment.mk (randomUUID_at (tick w)) (User.id u) (User.username u)
                      text (now_at (S (tick w))) in
  let v' := Video.with_comments (Video.comments v ++ [c]) v in
  let w' := (handleComment (Some u) st w).2 in
  (text ≠ "" →
     videos (db w') !! Video.id v = Some v' ∧
     length (Video.comments v') = S (length (Video.comments v)) ∧
     last (Video.comments v') = Some c ∧
     Comment.text c = JsString.trim (comment st) ∧
     (∀ k, k ≠ Video.id v → videos (db w') !! k = videos (db w) !! k) ∧
     (logs (db w) !! randomUUID_at (S (S (tick w))) = None →
        ∃ st', handleComment (Some u) st w = (Ok st', w') ∧
               video st' = Some v' ∧ comment st' = "")) ∧
  (text = "" → handleComment (Some u) st w = (Ok st, w)).
Proof.
  intros Hv. cbv zeta. split.
  - intros Hne. rewrite (handleComment_run w st u v Hv Hne). cbv zeta.
    match goal with |- context [addLog ?t ?m ?md ?w0] =>
      pose proof (addLog_frame t m md w0) as (_ & Hvs & _);
      pose proof (addLog_fresh t m md w0) as Hok;
      destruct (addLog t m md w0) as [[[]|e] w1] eqn:Hrun end;
      simpl in *; rewrite ?Hvs; unfold IDB.put;
      (split; [apply lookup_insert_eq|]);
      (split; [rewrite length_app; simpl; lia|]);
      (split; [apply last_snoc|]); (split; [done|]);
      (split; [intros k Hk; by apply lookup_insert_ne|]).
    + intros _. eexists. split; [reflexivity|]. done.
    + intros Hfresh. destruct (Hok Hfresh) as [w2 Hw2]. discriminate.
  - intros Hempty. unfold handleComment. rewrite Hv, Hempty. reflexivity.
Qed.

End CommentFacts.

Section PlaybackFacts.
Context `{RT : Runtime}.
Import Watch.

(** One turn of the retry loop. *)
Lemma fetchBlob_hit remaining attempt publicId w b :
  videoBlobs (db w) !! publicId = Some b →
  fetchBlob (S remaining) attempt publicId w = (Ok (Some b), w).
Proof.
  intros H. simpl. unfold bind, getVideoBlob, getsDB, IDB.get; simpl.
  by rewrite H.
Qed.


(** The local branch of [resolveLocalUrl] in terms of the loop's outcome. *)
Lemma resolveLocalUrl_local (w : World) (st : State) (v : Video.t) :
  video st = Some v →
  JsString.startsWith (Video.cloudinaryUrl v) "local://" = true →
  let publicId := JsString.replace (Video.cloudinaryUrl v) "local://" "" in
  resolveLocalUrl st w =
  match fetchBlob maxAttempts 1 publicId w with
  | (Ok (Some b), w') => (Ok (found st b), w')
  | (Ok None, w') =>
      (Ok (setVideoError true st, None),
       mkWorld (db w') (tick w') (out w' ++ unavailable publicId))
  | (Throw e, w') =>
      (Ok (setVideoError true st, None),
       mkWorld (db w') (tick w')
         (out w' ++ [ConsoleError "Failed to resolve local video blob:"]))
  end.
Proof.
  intros Hv Hloc. cbv zeta. unfold resolveLocalUrl. rewrite Hv, Hloc.
  unfold try_catch. unfold bind at 1.
  destruct (fetchBlob _ _ _ _) as [[[b|]|e] w']; try reflexivity.
  unfold bind, emit, ret, unavailable; simpl. by rewrite <- app_assoc.
Qed.


Lemma simulateProgress_returns ticks progress onProgress w :
  ∃ p w1, simulateProgress ticks progress onProgress w = (Ok p, w1).
Proof.
  revert progress w. induction ticks as [|k IH]; intros progress w; simpl.
  - unfold ret. eauto.
  - unfold bind at 1. case_bool_decide; [unfold ret; eauto | apply IH].
Qed.

(** The demo upload of a file the browser decodes, after the ten progress
    reports have left the world [w1]. *)
Lemma mockUpload_decoded (file : File.t) (onProgress : option (Z → World → World))
    (browser : Browser) (media : Decoded) (w w1 : World) (p : Z) :
  simulateProgress 10 0 onProgress w = (Ok p, w1) →
  decodes browser file = Some media →
  let publicId := "local_" +:+ pretty (now_at (tick w1)) in
  mockUpload file onProgress browser w =
  (Ok (Settled (mkResponse ("local://" +:+ publicId) publicId
                  (formatOf (Blob.type (File.blob file)))
                  (video_duration media) (videoWidth media) (videoHeight media)
                  (File.size file) (toDataURL media))),
   match refuses browser (File.blob file) with
   | None => mkWorld (set_videoBlobs (IDB.put publicId (File.blob file)) (db w1))
                     (S (tick w1)) (out w1)
   | Some _ => mkWorld (db w1) (S (tick w1))
                 (out w1 ++ [ConsoleWarn "Failed to save video blob to IndexedDB"])
   end).
Proof.
  intros Hsim Hdec. cbv zeta. unfold mockUpload. unfold bind at 1.
  rewrite Hsim, Hdec.
  unfold bind, Date_now, reading, try_catch; simpl.
  by destruct (refuses browser (File.blob file)).
Qed.

(** The demo upload of a file the browser cannot decode. *)
Lemma mockUpload_undecoded (file : File.t) (onProgress : option (Z → World → World))
    (browser : Browser) (w w1 : World) (p : Z) :
  simulateProgress 10 0 onProgress w = (Ok p, w1) →
  decodes browser file = None →
  mockUpload file onProgress browser w = (Ok Pending, w1).
Proof.
  intros Hsim Hdec. unfold mockUpload. unfold bind at 1.
  by rewrite Hsim, Hdec.
Qed.

(** The first lookup of a resolution finds a stored blob. *)
Lemma resolveLocalUrl_stored (w : World) (st : State) (v : Video.t)
    (publicId : string) (b : Blob.t) :
  video st = Some v →
  Video.cloudinaryUrl v = "local://" +:+ publicId →
  videoBlobs (db w) !! publicId = Some b →
  resolveLocalUrl st w = (Ok (found st b), w).
Proof.
  intros Hv Hurl Hb.
  rewrite (resolveLocalUrl_local _ st v Hv)
    by (rewrite Hurl; apply startsWith_local).
  cbv zeta. rewrite Hurl, replace_local. unfold maxAttempts.
  by rewrite (fetchBlob_hit _ _ _ _ _ Hb).
Qed.

(** C7. With the credentials as shipped the upload runs in demo
    mode.  For every file the browser decodes, the ingestion returns; the URI
    it returns uses the [local://] scheme, followed by the identifier, and
    the reported size is the size of the file.  When the engine stores the
    blob, it sits under the identifier, and whenever the page then shows a
    video carrying that URI, the resolution strips the scheme, finds the blob
    at the first lookup and plays it, the error flag down: the blob is the
    file's, of the file's size.  When the engine refuses the blob write, the
    ingestion only warns on the console: it returns the same URI and leaves
    the database as the progress reports left it. *)
Theorem local_ingest_round_trip (w : World) (file : File.t)
    (onProgress : option (Z → World → World)) (browser : Browser)
    (media : Decoded) (remote : M (Awaited CloudinaryUploadResponse)) :
  decodes browser file = Some media →
  let reported := exec (simulateProgress 10 0 onProgress) w in
  ∃ resp w',
    uploadVideoToCloudinary remote file onProgress browser w =
      (Ok (Settled resp), w') ∧
    JsString.startsWith (secure_url resp) "local://" = true ∧
    secure_url resp = "local://" +:+ public_id resp ∧
    bytes resp = File.size file ∧
    (refuses browser (File.blob file) = None →
       videoBlobs (db w') !! public_id resp = Some (File.blob file) ∧
       ∀ st v, video st = Some v → Video.cloudinaryUrl v = secure_url resp →
         ∃ st' b, resolveLocalUrl st w' = (Ok (st', Some b), w') ∧
           b = File.blob file ∧ Blob.size b = File.size file ∧
           videoError st' = false ∧
           videoRef st' = ((λ _, SrcObjectURL b) <$> videoRef st)) ∧
    (is_Some (refuses browser (File.blob file)) →
       db w' = db reported ∧
       out w' = (out reported
                 ++ [ConsoleWarn "Failed to save video blob to IndexedDB"])%list).
Proof.
  intros Hdec. cbv zeta.
  change (uploadVideoToCloudinary remote file onProgress browser)
    with (mockUpload file onProgress browser).
  destruct (simulateProgress_returns 10 0 onProgress w) as (p & w1 & Hsim).
  rewrite (mockUpload_decoded _ _ _ _ _ _ _ Hsim Hdec). cbv zeta.
  unfold exec. rewrite Hsim. simpl.
  eexists _, _. split; [reflexivity|]. simpl.
  split; [first [done | apply startsWith_local]|].
  split; [done|]. split; [done|]. split.
  - intros ->. simpl. unfold IDB.put.
    split; [apply lookup_insert_eq|].
    intros st v Hv Hurl. eexists _, (File.blob file).
    rewrite (resolveLocalUrl_stored _ st v _ (File.blob file) Hv Hurl)
      by (simpl; unfold IDB.put; apply lookup_insert_eq).
    unfold found. split; [reflexivity|]. simpl.
    split_and!; try done.
  - intros [e ->]. done.
Qed.

End PlaybackFacts.

(** ** Watch-page scenarios on the demo runtime *)

Section WatchScenarios.
Local Existing Instance demoRuntime.
Import Watch.

Lemma handleDelete_non_owner_witness :
  handleDelete (Some bob) (page clip "") w_clip =
    (Ok tt, mkWorld (db w_clip) 20 [permissionDenied]) ∧
  ∃ l, (getAllVideos (mkWorld (db w_clip) 20 [permissionDenied])).1 = Ok l ∧
       clip ∈ l.
Proof.
  destruct (handleDelete_non_owner_denied w_clip (page clip "") bob clip)
    as (Hrun & _ & Hstill); [reflexivity | discriminate |].
  split; [exact Hrun|].
  destruct Hstill as (l & Hl & Hin & _); [apply lookup_singleton_eq|].
  exists l. split; [exact Hl | exact Hin].
Defined.

Lemma loadVideo_witness :
  ∃ st' w' v', loadVideo (Some "v1") (page clip "") w_clip = (Ok st', w') ∧
    videos (db w') !! "v1" = Some v' ∧
    Video.views v' = 1 ∧ Video.likes v' = 0 ∧ Video.comments v' = [] ∧
    Video.caption v' = "Hi".
Proof.
  destruct (loadVideo_increments_views_only w_clip (page clip "") "v1" clip)
    as (st' & w' & v' & Hrun & Hv' & Hviews & _ & _ & _ & _ & _ & Hcap & _ & _
        & _ & Hlikes & Hcomments & _).
  - apply map_Forall_singleton. reflexivity.
  - apply lookup_singleton_eq.
  - discriminate.
  - exists st', w', v'. split_and!; [exact Hrun | exact Hv' | | | |].
    + rewrite Hviews. reflexivity.
    + rewrite Hlikes. reflexivity.
    + rewrite Hcomments. reflexivity.
    + rewrite Hcap. reflexivity.
Defined.

Lemma like_then_unlike_witness :
  ∃ st1 w1 st2 w2,
    handleLike (Some bob) (page clip "") w_clip = (Ok st1, w1) ∧
    (Video.likes <$> videos (db w1) !! "v1") = Some 1 ∧
    handleLike (Some bob) st1 w1 = (Ok st2, w2) ∧
    (Video.likes <$> videos (db w2) !! "v1") = Some 0.
Proof.
  destruct (like_then_unlike_restores_likes w_clip (page clip "") bob clip)
    as (st1 & w1 & Hrun1 & _ & Hmid & st2 & w2 & Hrun2 & _ & _ & _ & Hend).
  - reflexivity.
  - reflexivity.
  - apply lookup_singleton_eq.
  - intros i _. apply lookup_empty.
  - exists st1, w1, st2, w2. split_and!;
      [exact Hrun1 | exact Hmid | exact Hrun2 | exact Hend].
Defined.

Lemma handleComment_witness :
  (∃ v' c,
     videos (db (exec (handleComment (Some bob) (page clip " hi ")) w_clip))
       !! "v1" = Some v' ∧
     length (Video.comments v') = 1%nat ∧
     last (Video.comments v') = Some c ∧
     Comment.text c = "hi" ∧ Comment.userId c = "uuid-6") ∧
  handleComment (Some bob) (page clip "  ") w_clip = (Ok (page clip "  "), w_clip).
Proof.
  split.
  - destruct (handleComment_appends_trimmed w_clip (page clip " hi ") bob clip
                eq_refl) as [Happ _].
    destruct Happ as (Hv' & Hlen & Hlast & Htext & _); [discriminate|].
    eexists _, _. split_and!; [exact Hv' | exact Hlen | exact Hlast | | ];
      reflexivity.
  - destruct (handleComment_appends_trimmed w_clip (page clip "  ") bob clip
                eq_refl) as [_ Hrej].
    apply Hrej. reflexivity.
Defined.

(** Posting " hi " stores a comment whose text is "hi", not the text posted. *)
Lemma comment_text_is_not_the_posted_text :
  ∃ v' c,
    JsString.trim " hi " ≠ "" ∧
    videos (db (exec (handleComment (Some bob) (page clip " hi ")) w_clip))
      !! "v1" = Some v' ∧
    length (Video.comments v') = S (length (Video.comments clip)) ∧
    last (Video.comments v') = Some c ∧
    Comment.text c ≠ " hi ".
Proof.
  eexists _, _. split_and!.
  - discriminate.
  - vm_compute. reflexivity.
  - reflexivity.
  - reflexivity.
  - discriminate.
Qed.



Lemma local_ingest_witness :
  ∃ resp w' st',
    uploadVideoToCloudinary (ret Pending) demoFile None demoBrowser w_clip =
      (Ok (Settled resp), w') ∧
    secure_url resp = "local://local_1700000000020" ∧
    bytes resp = 4 ∧
    videoBlobs (db w') !! "local_1700000000020" = Some (File.blob demoFile) ∧
    resolveLocalUrl (pageAfter (SrcUrl "about:blank") uploaded) w' =
      (Ok (st', Some (File.blob demoFile)), w') ∧
    videoError st' = false ∧
    videoRef st' = Some (SrcObjectURL (File.blob demoFile)).
Proof.
  destruct (local_ingest_round_trip w_clip demoFile None demoBrowser demoMedia
              (ret Pending) eq_refl)
    as (resp & w' & Hrun & _ & Hurl & Hbytes & Hstored & _).
  destruct (Hstored eq_refl) as (Hblob & Hplay).
  assert (Hid : public_id resp = "local_1700000000020").
  { injection Hrun as <- _. vm_compute. reflexivity. }
  destruct (Hplay (pageAfter (SrcUrl "about:blank") uploaded) uploaded eq_refl)
    as (st' & b & Hres & -> & _ & Herr & Href).
  { rewrite Hurl, Hid. reflexivity. }
  exists resp, w', st'. split; [exact Hrun|].
  split; [by rewrite Hurl, Hid|]. split; [exact Hbytes|].
  split; [by rewrite <- Hid|]. split; [exact Hres|].
  split; [exact Herr | exact Href].
Defined.

(** Two ingestions in local mode that do not make the round trip.  With the
    quota used up the ingestion returns a [local://] URI for which no blob is
    stored: the watch page looks three times and reports the video
    unavailable.  And the ingestion of a file the browser cannot decode
    returns nothing at all: it stays pending. *)
Lemma local_ingest_without_round_trip :
  (∃ resp w' st' w'',
     uploadVideoToCloudinary (ret Pending) demoFile None fullBrowser w_clip =
       (Ok (Settled resp), w') ∧
     JsString.startsWith (secure_url resp) "local://" = true ∧
     Video.cloudinaryUrl uploaded = secure_url resp ∧
     videoBlobs (db w') !! public_id resp = None ∧
     resolveLocalUrl (page uploaded "") w' = (Ok (st', None), w'') ∧
     videoError st' = true) ∧
  uploadVideoToCloudinary (ret Pending) brokenFile None demoBrowser w_clip =
    (Ok Pending, w_clip).
Proof.
  split.
  - eexists _, _, _, _. split_and!.
    + vm_compute. reflexivity.
    + reflexivity.
    + vm_compute. reflexivity.
    + reflexivity.
    + vm_compute. reflexivity.
    + reflexivity.
  - vm_compute. reflexivity.
Qed.

End WatchScenarios.

(** * Further properties *)

(** ** Enumerating a store *)

Section MoreStoreFacts.
Context {V : Type}.
Implicit Types (m : gmap string V).

#[local] Instance index_le_total (idx : V → Z) : Total (IDB.index_le idx).
Proof.
  intros a b. unfold IDB.index_le.
  destruct (Z.lt_trichotomy (idx a.2) (idx b.2)) as [?|[?|?]]; auto.
  destruct (total String.le a.1 b.1); auto.
Qed.

#[local] Instance index_le_trans (idx : V → Z) : Transitive (IDB.index_le idx).
Proof.
  intros a b c [?|[? ?]] [?|[? ?]]; unfold IDB.index_le.
  - left. lia.
  - left. lia.
  - left. lia.
  - right. split; [lia|]. by etrans.
Qed.

(** An index read is ascending in the index key. *)
Lemma getAllFromIndex_sorted (idx : V → Z) m :
  StronglySorted (λ a b, idx a ≤ idx b)%Z (IDB.getAllFromIndex idx m).
Proof.
  unfold IDB.getAllFromIndex.
  apply (StronglySorted_fmap snd (IDB.index_le idx)).
  - intros a b [?|[? ?]]; lia.
  - apply StronglySorted_merge_sort; apply _.
Qed.

Lemma getAllFromIndex_length (idx : V → Z) m :
  length (IDB.getAllFromIndex idx m) = size m.
Proof.
  unfold IDB.getAllFromIndex. rewrite length_fmap, merge_sort_Permutation.
  apply length_map_to_list.
Qed.

(** In a keyed store no record is listed twice. *)
Lemma values_NoDup key m :
  IDB.keyed key m → NoDup (map_to_list m).*2.
Proof.
  intros Hkeyed. apply NoDup_fmap_2_strong; [|apply NoDup_map_to_list].
  intros [k1 v1] [k2 v2] H1%elem_of_map_to_list H2%elem_of_map_to_list.
  simpl. intros <-. f_equal.
  by rewrite <- (Hkeyed k1 v1 H1), <- (Hkeyed k2 v1 H2).
Qed.

Lemma getAllFromIndex_NoDup (idx : V → Z) key m :
  IDB.keyed key m → NoDup (IDB.getAllFromIndex idx m).
Proof.
  intros Hkeyed. unfold IDB.getAllFromIndex.
  rewrite merge_sort_Permutation. by eapply values_NoDup.
Qed.

Lemma getAll_NoDup key m : IDB.keyed key m → NoDup (IDB.getAll m).
Proof.
  intros Hkeyed. unfold IDB.getAll.
  rewrite merge_sort_Permutation. by eapply values_NoDup.
Qed.

Lemma getAllFromIndex_empty (idx : V → Z) :
  IDB.getAllFromIndex idx (∅ : gmap string V) = [].
Proof.
  apply length_zero_iff_nil. by rewrite getAllFromIndex_length, map_size_empty.
Qed.

Lemma getAll_empty : IDB.getAll (∅ : gmap string V) = [].
Proof.
  apply length_zero_iff_nil. by rewrite getAll_length, map_size_empty.
Qed.

(** A keyed store lists the record of key [k] only under that key. *)
Lemma find_getAllFromIndex_None (idx : V → Z) key m k :
  IDB.keyed key m → m !! k = None →
  find (λ r, String.eqb (key r) k) (IDB.getAllFromIndex idx m) = None.
Proof.
  intros Hkeyed Hk. destruct (find _ _) as [r|] eqn:E; [|done].
  apply find_some in E as [Hin Heq]. apply String.eqb_eq in Heq.
  apply list_elem_of_In, getAllFromIndex_elem in Hin as [k' Hk'].
  rewrite <- (Hkeyed k' r Hk'), Heq in Hk'. congruence.
Qed.

Lemma head_getAll_is_Some m k v :
  m !! k = Some v → is_Some (head (IDB.getAll m)).
Proof.
  intros Hk. apply head_is_Some. intros Hnil.
  assert (v ∈ IDB.getAll m) as Hin by (apply getAll_elem; eauto).
  rewrite Hnil in Hin. by apply not_elem_of_nil in Hin.
Qed.

End MoreStoreFacts.

(** [sumOf] does not depend on the order of the list. *)
Lemma sumOf_acc {A} (f : A → Z) (l : list A) (a : Z) :
  fold_left (λ sum v, sum + f v) l a = a + sumOf f l.
Proof.
  unfold sumOf. revert a. induction l as [|x l IH]; intros a; simpl; [lia|].
  rewrite IH, (IH (0 + f x)). lia.
Qed.

Lemma sumOf_cons {A} (f : A → Z) (x : A) (l : list A) :
  sumOf f (x :: l) = f x + sumOf f l.
Proof. unfold sumOf at 1. simpl. by rewrite sumOf_acc. Qed.

Lemma sumOf_Permutation {A} (f : A → Z) (l k : list A) :
  l ≡ₚ k → sumOf f l = sumOf f k.
Proof.
  induction 1 as [|x l k _ IH|x y l|l k j _ IH1 _ IH2];
    rewrite ?sumOf_cons; try lia; congruence.
Qed.

Section ReadFacts.
Context `{RT : Runtime}.

(** X1. [getAllVideos] writes nothing and lists exactly the stored videos,
    as many as the store holds, oldest upload first. *)
Theorem getAllVideos_oldest_first (w : World) :
  ∃ l, getAllVideos w = (Ok l, w) ∧
    (∀ v, v ∈ l ↔ ∃ k, videos (db w) !! k = Some v) ∧
    length l = size (videos (db w)) ∧
    StronglySorted (λ a b, Video.uploadedAt a ≤ Video.uploadedAt b)%Z l.
Proof.
  eexists. split; [reflexivity|]. split_and!.
  - intros v. apply getAllFromIndex_elem.
  - apply getAllFromIndex_length.
  - apply getAllFromIndex_sorted.
Qed.

(** X2. The feed always finishes loading, writes nothing, and shows every
    stored video, most recent upload first. *)
Theorem Feed_loadVideos_newest_first (w : World) (st : Feed.State) :
  ∃ st', Feed.loadVideos st w = (Ok st', w) ∧
    Feed.loading st' = false ∧
    (∀ v, v ∈ Feed.shown st' ↔ ∃ k, videos (db w) !! k = Some v) ∧
    length (Feed.shown st') = size (videos (db w)) ∧
    Sorted (λ a b, Video.uploadedAt b ≤ Video.uploadedAt a)%Z (Feed.shown st').
Proof.
  eexists. split; [reflexivity|]. simpl. split_and!; [done| | |].
  - intros v. rewrite elem_of_reverse. apply getAllFromIndex_elem.
  - rewrite length_reverse. apply getAllFromIndex_length.
  - apply (Sorted_reverse (λ a b, Video.uploadedAt a ≤ Video.uploadedAt b)%Z).
    apply StronglySorted_Sorted, getAllFromIndex_sorted.
Qed.

(** X3. The logs page always finishes loading, writes nothing, and shows
    every stored log entry, latest first. *)
Theorem Logs_loadLogs_latest_first (w : World) (st : Logs.State) :
  ∃ st', Logs.loadLogs st w = (Ok st', w) ∧
    Logs.loading st' = false ∧
    (∀ e, e ∈ Logs.shown st' ↔ ∃ k, logs (db w) !! k = Some e) ∧
    length (Logs.shown st') = size (logs (db w)) ∧
    Sorted (λ a b, Log.timestamp b ≤ Log.timestamp a)%Z (Logs.shown st').
Proof.
  eexists. split; [reflexivity|]. simpl. split_and!; [done| | |].
  - intros v. rewrite elem_of_reverse. apply getAllFromIndex_elem.
  - rewrite length_reverse. apply getAllFromIndex_length.
  - apply (Sorted_reverse (λ a b, Log.timestamp a ≤ Log.timestamp b)%Z).
    apply StronglySorted_Sorted, getAllFromIndex_sorted.
Qed.

End ReadFacts.

(** [Array.prototype.filter] with a boolean test, as a [filter] on a
    decidable predicate. *)
Lemma List_filter_as_filter {A} (f : A → bool) (l : list A) :
  List.filter f l = filter (λ x, f x = true) l.
Proof.
  induction l as [|x l IH]; [done|]. simpl. rewrite filter_cons, IH.
  destruct (f x); case_decide; congruence.
Qed.

Section PerUserFacts.
Context `{RT : Runtime}.

(** X4. The profile page of a user lists exactly the stored videos that user
    owns, each once, and writes nothing.  The videos the analytics page keeps
    for the same user out of [getAllVideos] are the same ones, possibly in
    another order, so both pages arrive at the same view and like totals. *)
Theorem Profile_lists_the_users_videos (w : World) (u : User.t)
    (st : Profile.State) :
  IDB.keyed Video.id (videos (db w)) →
  ∃ st', Profile.loadUserVideos (Some u) st w = (Ok st', w) ∧
    Profile.loading st' = false ∧
    (∀ v, v ∈ Profile.shown st' ↔
          (∃ k, videos (db w) !! k = Some v) ∧ Video.userId v = User.id u) ∧
    NoDup (Profile.shown st') ∧
    ∃ allVideos, getAllVideos w = (Ok allVideos, w) ∧
      Profile.shown st' ≡ₚ Analytics.userVideos (Some u) allVideos ∧
      Profile.totalViews st' =
        Analytics.totalViews (Analytics.userVideos (Some u) allVideos) ∧
      Profile.totalLikes st' =
        Analytics.totalLikes (Analytics.userVideos (Some u) allVideos).
Proof.
  intros Hkeyed. eexists. split; [reflexivity|]. simpl.
  assert (Hmem : ∀ v,
    v ∈ reverse (getAllFromIndexKey Video.userId (User.id u) (videos (db w))) ↔
    (∃ k, videos (db w) !! k = Some v) ∧ Video.userId v = User.id u).
  { intros v. rewrite elem_of_reverse. unfold getAllFromIndexKey.
    rewrite list_elem_of_filter, getAll_elem. tauto. }
  assert (Hnd : NoDup (reverse (getAllFromIndexKey Video.userId (User.id u)
                                  (videos (db w))))).
  { rewrite reverse_Permutation. apply NoDup_filter.
    by apply (getAll_NoDup Video.id). }
  split; [done|]. split; [exact Hmem|]. split; [exact Hnd|].
  eexists. split; [reflexivity|].
  assert (Hperm :
    reverse (getAllFromIndexKey Video.userId (User.id u) (videos (db w))) ≡ₚ
    Analytics.userVideos (Some u)
      (IDB.getAllFromIndex Video.uploadedAt (videos (db w)))).
  { apply NoDup_Permutation; [exact Hnd| |].
    - unfold Analytics.userVideos. rewrite List_filter_as_filter.
      apply NoDup_filter. by apply (getAllFromIndex_NoDup _ Video.id).
    - intros v. rewrite Hmem. unfold Analytics.userVideos.
      rewrite List_filter_as_filter, list_elem_of_filter,
        getAllFromIndex_elem, String.eqb_eq. tauto. }
  split; [exact Hperm|].
  unfold Profile.totalViews, Profile.totalLikes, Analytics.totalViews,
    Analytics.totalLikes; simpl.
  split; by apply sumOf_Permutation.
Qed.

(** X5. [saveVideo] stores a video under an unused id, where lookups and
    [getAllVideos] then find it, and leaves every other video alone; under an
    id already in use it fails with [ConstraintError] and writes nothing, so
    the stored record stays. *)
Theorem saveVideo_inserts_or_rejects (w : World) (v : Video.t) :
  (videos (db w) !! Video.id v = None →
     ∃ w' l, saveVideo v w = (Ok tt, w') ∧
       videos (db w') !! Video.id v = Some v ∧
       (∀ k, k ≠ Video.id v → videos (db w') !! k = videos (db w) !! k) ∧
       size (videos (db w')) = S (size (videos (db w))) ∧
       getAllVideos w' = (Ok l, w') ∧ v ∈ l) ∧
  (∀ old, videos (db w) !! Video.id v = Some old →
     saveVideo v w = (Throw ConstraintError, w)).
Proof.
  split.
  - intros Hfree. unfold saveVideo, addTo, IDB.add. rewrite Hfree. simpl.
    eexists _, _. split; [reflexivity|]. simpl. split_and!.
    + apply lookup_insert_eq.
    + intros k Hk. by apply lookup_insert_ne.
    + by apply map_size_insert_None.
    + reflexivity.
    + apply getAllFromIndex_elem. exists (Video.id v). apply lookup_insert_eq.
  - intros old Hold. unfold saveVideo, addTo, IDB.add. by rewrite Hold.
Qed.

(** X6. The log is append-only: [addLog] never changes or removes a stored
    entry.  When the drawn UUID is unused it adds exactly one entry, carrying
    the given type, message and metadata and the clock reading, which
    [getAllLogs] then lists. *)
Theorem addLog_appends_only (w : World) (type : LogType.t) (message : string)
    (metadata : option (list (string * MetaValue))) :
  let w' := (addLog type message metadata w).2 in
  (∀ k e, logs (db w) !! k = Some e → logs (db w') !! k = Some e) ∧
  (logs (db w) !! randomUUID_at (tick w) = None →
     let e := Log.mk (randomUUID_at (tick w)) type message
                     (now_at (S (tick w))) metadata in
     addLog type message metadata w = (Ok tt, w') ∧
     logs (db w') = <[Log.id e := e]> (logs (db w)) ∧
     size (logs (db w')) = S (size (logs (db w))) ∧
     ∃ l, getAllLogs w' = (Ok l, w') ∧ e ∈ l).
Proof.
  cbv zeta.
  unfold addLog, bind, randomUUID, Date_now, reading, addTo, IDB.add; simpl.
  destruct (logs (db w) !! randomUUID_at (tick w)) as [x|] eqn:Hid; simpl.
  - split; [done|]. discriminate.
  - split.
    + intros k e Hk. rewrite lookup_insert_ne; [done|]. congruence.
    + intros _. split_and!; [done..| by apply map_size_insert_None |].
      eexists. split; [reflexivity|]. simpl.
      apply getAllFromIndex_elem. eexists. apply lookup_insert_eq.
Qed.

(** X7. Clearing the logs always completes: the log store is empty
    afterwards, the page shows no entry, a reload of the page shows none
    either, and users, videos, blobs and the session are as before. *)
Theorem clearLogs_empties_the_log (w : World) (st : Logs.State) :
  ∃ st' w', Logs.clearLogs st w = (Ok st', w') ∧
    logs (db w') = ∅ ∧ Logs.shown st' = [] ∧
    users (db w') = users (db w) ∧ videos (db w') = videos (db w) ∧
    videoBlobs (db w') = videoBlobs (db w) ∧ session (db w') = session (db w) ∧
    ∃ st'', Logs.loadLogs st' w' = (Ok st'', w') ∧ Logs.shown st'' = [].
Proof.
  eexists _, _. split; [reflexivity|]. simpl. split_and!; try done.
  eexists. split; [reflexivity|]. simpl.
  unfold IDB.clear. by rewrite getAllFromIndex_empty.
Qed.

End PerUserFacts.

Section MoreLogFacts.
Context `{RT : Runtime}.

(** [addLog] under an unused UUID: one more entry, the others untouched. *)
Lemma addLog_appends_fresh type message metadata w :
  logs (db w) !! randomUUID_at (tick w) = None →
  ∃ w', addLog type message metadata w = (Ok tt, w') ∧
    size (logs (db w')) = S (size (logs (db w))) ∧
    (∀ k, k ≠ randomUUID_at (tick w) → logs (db w') !! k = logs (db w) !! k).
Proof.
  intros Hfresh.
  unfold addLog, bind, randomUUID, Date_now, reading, addTo, IDB.add; simpl.
  rewrite Hfresh; simpl. eexists. split; [reflexivity|]. simpl. split.
  - by apply map_size_insert_None.
  - intros k Hk. by apply lookup_insert_ne.
Qed.

End MoreLogFacts.

(** ** Accounts and sessions *)

Section MoreAuthFacts.
Context `{RT : Runtime}.

Lemma index_taken_free {V} (idx : V → string) (v : V) (m : gmap string V) :
  (∀ k r, m !! k = Some r → idx r ≠ idx v) → IDB.index_taken idx v m = false.
Proof.
  intros Hfree. destruct (IDB.index_taken idx v m) eqn:E; [|done].
  unfold IDB.index_taken in E. apply existsb_exists in E as (r & Hin & Heq).
  apply list_elem_of_In, getAll_elem in Hin as [k Hk].
  apply String.eqb_eq in Heq. by destruct (Hfree k r Hk).
Qed.

(** One run of [signup] with a free username, a free email and unused
    UUIDs. *)
Lemma signup_run_fresh (w : World) (username email password : string) :
  (∀ k u, users (db w) !! k = Some u →
          User.username u ≠ username ∧ User.email u ≠ email) →
  users (db w) !! randomUUID_at (S (tick w)) = None →
  logs (db w) !! randomUUID_at (3 + tick w) = None →
  let u := newUser w username email password in
  ∃ w', signup username email password w =
          (Ok (mkAuthResult true "Account created successfully" (Some u)), w') ∧
    users (db w') = <[User.id u := u]> (users (db w)) ∧
    videos (db w') = videos (db w) ∧ videoBlobs (db w') = videoBlobs (db w) ∧
    session (db w') = session (db w) ∧
    tick w' = (5 + tick w)%nat ∧
    size (logs (db w')) = S (size (logs (db w))) ∧
    (∀ k, k ≠ randomUUID_at (3 + tick w) →
          logs (db w') !! k = logs (db w) !! k).
Proof.
  intros Hfree Huid Hlid. cbv zeta.
  unfold signup, try_catch, bind at 1, getUserByUsername, getsDB. simpl.
  rewrite getFromIndex_None by (intros k u Hk; by apply (Hfree k u Hk)).
  unfold bind at 1, reading; simpl. unfold bind at 1, randomUUID, reading; simpl.
  unfold bind at 1, Date_now, reading; simpl.
  unfold bind at 1, createUser, addTo, IDB.add; simpl.
  rewrite Huid. simpl.
  rewrite !index_taken_free by (intros k u Hk; simpl; by apply (Hfree k u Hk)).
  simpl. unfold bind at 1.
  match goal with |- context [addLog ?t ?m ?md ?w0] =>
    pose proof (addLog_frame t m md w0) as (Hu & Hv & Hb & Hs & _ & Ht);
    pose proof (addLog_appends_fresh t m md w0 Hlid) as (w1 & Hrun & Hsz & Hl)
  end.
  rewrite Hrun in *. simpl in *. eexists. split; [reflexivity|]. simpl.
  split_and!; try done.
Qed.

End MoreAuthFacts.

Section AuthSequences.
Context `{RT : Runtime}.

Lemma getAll_singleton {V} (k : string) (v : V) :
  IDB.getAll ({[ k := v ]} : gmap string V) = [v].
Proof. unfold IDB.getAll. by rewrite map_to_list_singleton. Qed.

(** [login] and [logout] never write to the users, videos or blobs. *)
Lemma login_frame username password w :
  let w' := (login username password w).2 in
  users (db w') = users (db w) ∧ videos (db w') = videos (db w) ∧
  videoBlobs (db w') = videoBlobs (db w).
Proof.
  cbv zeta. unfold login, try_catch, bind, getUserByUsername, getsDB. simpl.
  destruct (IDB.getFromIndex _ _ _) as [u|]; simpl; [|done].
  destruct (bcrypt_compare _ _); simpl; [|done].
  unfold saveSession, bind, Date_now, reading, modifyDB. simpl.
  addLog_cases as (Hu & Hv & Hb & _); simpl in *; by rewrite Hu, Hv, Hb.
Qed.

Lemma logout_frame w :
  let w' := (logout w).2 in
  users (db w') = users (db w) ∧ videos (db w') = videos (db w) ∧
  videoBlobs (db w') = videoBlobs (db w).
Proof.
  cbv zeta. unfold logout, bind, getSession, bind, getsDB, ret. simpl.
  destruct (head _) as [s|]; simpl; [|done].
  addLog_cases as (Hu & Hv & Hb & _); simpl in *; by rewrite ?Hu, ?Hv, ?Hb.
Qed.

(** What a successful [login] has done. *)
Lemma login_success_inv username password w r w' :
  login username password w = (Ok r, w') → success r = true →
  ∃ u, IDB.getFromIndex User.username username (users (db w)) = Some u ∧
    bcrypt_compare password (User.passwordHash u) = true ∧
    r = mkAuthResult true "Login successful" (Some u) ∧
    session (db w') =
      <[User.id u := Session.mk (User.id u) (now_at (tick w))]> (session (db w)).
Proof.
  unfold login, try_catch, bind, getUserByUsername, getsDB; simpl.
  destruct (IDB.getFromIndex _ _ _) as [u|]; simpl;
    [|intros [= <- <-]; discriminate].
  destruct (bcrypt_compare _ _) eqn:Hcmp; simpl;
    [|intros [= <- <-]; discriminate].
  unfold saveSession, bind, Date_now, reading, modifyDB; simpl.
  addLog_cases as (_ & _ & _ & Hs & _); simpl in *.
  - intros [= <- <-] _. exists u. split_and!; first [done | by rewrite Hs].
  - intros [= <- <-]; discriminate.
Qed.

(** One run of [login] with the right password and an unused log id. *)
Lemma login_run_ok username password w u :
  IDB.getFromIndex User.username username (users (db w)) = Some u →
  bcrypt_compare password (User.passwordHash u) = true →
  logs (db w) !! randomUUID_at (S (tick w)) = None →
  ∃ w', login username password w =
          (Ok (mkAuthResult true "Login successful" (Some u)), w') ∧
    session (db w') =
      <[User.id u := Session.mk (User.id u) (now_at (tick w))]> (session (db w)) ∧
    users (db w') = users (db w).
Proof.
  intros Hu Hcmp Hfresh.
  unfold login, try_catch, bind at 1, getUserByUsername, getsDB. simpl.
  rewrite Hu. simpl. rewrite Hcmp. simpl.
  unfold bind at 1, saveSession, bind at 1, Date_now, reading, modifyDB. simpl.
  unfold bind at 1.
  match goal with |- context [addLog ?t ?m ?md ?w0] =>
    pose proof (addLog_frame t m md w0) as (Hus & _ & _ & Hs & _);
    destruct (addLog_fresh t m md w0 Hfresh) as [w1 Hrun] end.
  rewrite Hrun in *. simpl in *. eexists. split; [reflexivity|]. simpl.
  by rewrite Hs, Hus.
Qed.

(** X8. With a username and an email no stored user has, and unused UUIDs,
    [signup] succeeds: it stores exactly the new user, whose hash is the
    bcrypt hash of the password, leaves the earlier users, the videos and the
    blobs alone, adds one log entry, and opens no session. *)
Theorem signup_creates_one_account (w : World) (username email password : string) :
  (∀ k u, users (db w) !! k = Some u →
          User.username u ≠ username ∧ User.email u ≠ email) →
  users (db w) !! randomUUID_at (S (tick w)) = None →
  logs (db w) !! randomUUID_at (3 + tick w) = None →
  ∃ u w', signup username email password w =
            (Ok (mkAuthResult true "Account created successfully" (Some u)), w') ∧
    User.username u = username ∧ User.email u = email ∧
    User.passwordHash u = bcrypt_hash password (bcrypt_salt_at (tick w)) ∧
    users (db w') !! User.id u = Some u ∧
    (∀ k, k ≠ User.id u → users (db w') !! k = users (db w) !! k) ∧
    size (users (db w')) = S (size (users (db w))) ∧
    size (logs (db w')) = S (size (logs (db w))) ∧
    videos (db w') = videos (db w) ∧ videoBlobs (db w') = videoBlobs (db w) ∧
    session (db w') = session (db w).
Proof.
  intros Hfree Huid Hlid.
  destruct (signup_run_fresh w username email password Hfree Huid Hlid)
    as (w' & Hrun & Hu & Hv & Hb & Hs & _ & Hsz & _).
  eexists _, w'. split; [exact Hrun|]. rewrite Hu. simpl. split_and!; try done.
  - apply lookup_insert_eq.
  - intros k Hk. by apply lookup_insert_ne.
  - by apply map_size_insert_None.
Qed.

(** X9. A login right after a successful signup, with the same username and
    password, succeeds whenever bcrypt verifies the hash it has just made: it
    returns the new user, stores a session under that user's id, and
    [isAuthenticated] then answers true. *)
Theorem signup_then_login_succeeds (w : World) (username email password : string) :
  (∀ k u, users (db w) !! k = Some u →
          User.username u ≠ username ∧ User.email u ≠ email) →
  users (db w) !! randomUUID_at (S (tick w)) = None →
  (∀ i, (tick w ≤ i)%nat → logs (db w) !! randomUUID_at i = None) →
  bcrypt_compare password (bcrypt_hash password (bcrypt_salt_at (tick w))) = true →
  ∃ u w1 w2,
    signup username email password w =
      (Ok (mkAuthResult true "Account created successfully" (Some u)), w1) ∧
    login username password w1 =
      (Ok (mkAuthResult true "Login successful" (Some u)), w2) ∧
    is_Some (session (db w2) !! User.id u) ∧
    isAuthenticated w2 = (Ok true, w2).
Proof.
  intros Hfree Huid Hlogs Hcmp.
  destruct (signup_run_fresh w username email password Hfree Huid)
    as (w1 & Hrun1 & Hu & _ & _ & _ & Ht & _ & Hl); [apply Hlogs; lia|].
  set (u := newUser w username email password) in *.
  assert (Hidx : IDB.getFromIndex User.username username (users (db w1)) = Some u).
  { change username with (User.username u) at 1.
    apply (getFromIndex_unique User.username _ (User.id u)).
    - rewrite Hu. apply lookup_insert_eq.
    - intros k' u' Hk' Hname. rewrite Hu in Hk'.
      destruct (decide (k' = User.id u)) as [->|Hne].
      + rewrite lookup_insert_eq in Hk'. congruence.
      + rewrite lookup_insert_ne in Hk' by done.
        by destruct (Hfree k' u' Hk') as [Hn _]. }
  destruct (login_run_ok username password w1 u Hidx Hcmp)
    as (w2 & Hrun2 & Hs & _).
  { rewrite Hl.
    - apply Hlogs. lia.
    - rewrite Ht. intros Heq%randomUUID_inj. lia. }
  exists u, w1, w2. split; [exact Hrun1|]. split; [exact Hrun2|].
  assert (Hsess : is_Some (session (db w2) !! User.id u)).
  { rewrite Hs, lookup_insert_eq. eauto. }
  split; [exact Hsess|].
  unfold isAuthenticated, bind, getSession, bind, getsDB, ret; simpl.
  destruct Hsess as [s Hsess].
  destruct (head_getAll_is_Some _ _ _ Hsess) as [s0 ->].
  first [reflexivity | repeat f_equal; apply bool_decide_eq_true; eauto].
Qed.

(** X10. After a successful login the session of the returned user is
    stored and [isAuthenticated] answers true; users, videos and blobs are
    untouched.  When no other user had a session and users sit under their
    ids, [getCurrentUser] resolves to the user who logged in. *)
Theorem login_success_authenticates (w w' : World) (username password : string)
    (r : AuthResult) :
  login username password w = (Ok r, w') →
  success r = true →
  ∃ u, user r = Some u ∧ User.username u = username ∧
    session (db w') !! User.id u =
      Some (Session.mk (User.id u) (now_at (tick w))) ∧
    isAuthenticated w' = (Ok true, w') ∧
    users (db w') = users (db w) ∧ videos (db w') = videos (db w) ∧
    videoBlobs (db w') = videoBlobs (db w) ∧
    (IDB.keyed User.id (users (db w)) →
     (∀ k s, session (db w) !! k = Some s → k = User.id u) →
     getCurrentUser w' = (Ok (Some u), w')).
Proof.
  intros Hrun Hok.
  destruct (login_success_inv _ _ _ _ _ Hrun Hok) as (u & Hidx & _ & -> & Hs).
  pose proof (login_frame username password w) as (Hu & Hv & Hb).
  rewrite Hrun in Hu, Hv, Hb. simpl in Hu, Hv, Hb.
  apply getFromIndex_Some in Hidx as [[k Hk] Hname].
  exists u. split_and!; try done.
  - rewrite Hs. apply lookup_insert_eq.
  - unfold isAuthenticated, bind, getSession, bind, getsDB, ret; simpl.
    destruct (head_getAll_is_Some (session (db w')) (User.id u)
                (Session.mk (User.id u) (now_at (tick w)))) as [s0 ->].
    { rewrite Hs. apply lookup_insert_eq. }
    first [reflexivity | repeat f_equal; apply bool_decide_eq_true; eauto].
  - intros Hkeyed Honly.
    assert (Hone : session (db w') =
                   {[ User.id u := Session.mk (User.id u) (now_at (tick w)) ]}).
    { rewrite Hs. apply map_eq. intros k'.
      destruct (decide (k' = User.id u)) as [->|Hne].
      - by rewrite lookup_insert_eq, lookup_singleton_eq.
      - rewrite lookup_insert_ne, lookup_singleton_ne by done.
        destruct (session (db w) !! k') as [s|] eqn:E; [|done].
        by destruct (Hne (Honly k' s E)). }
    unfold getCurrentUser, try_catch, bind, getSession, bind, getsDB, ret,
      getUserById, getsDB, IDB.get; simpl.
    rewrite Hone, getAll_singleton. simpl. rewrite Hu.
    rewrite <- (Hkeyed k u Hk) in Hk. by rewrite Hk.
Qed.

(** X11. When no session is stored, or the UUID drawn for the log entry is
    unused, [logout] completes: the session store is empty, [isAuthenticated]
    answers false and [getCurrentUser] answers with no user; users, videos and
    blobs are untouched. *)
Theorem logout_ends_the_session (w : World) :
  session (db w) = ∅ ∨ logs (db w) !! randomUUID_at (tick w) = None →
  ∃ w', logout w = (Ok tt, w') ∧
    session (db w') = ∅ ∧
    isAuthenticated w' = (Ok false, w') ∧
    getCurrentUser w' = (Ok None, w') ∧
    users (db w') = users (db w) ∧ videos (db w') = videos (db w) ∧
    videoBlobs (db w') = videoBlobs (db w).
Proof.
  intros Hpre.
  assert (∃ w', logout w = (Ok tt, w')) as [w' Hrun].
  { unfold logout, bind at 1, getSession, bind at 1, getsDB, ret. simpl.
    destruct Hpre as [Hempty | Hfresh].
    - rewrite Hempty, getAll_empty. simpl. eauto.
    - destruct (head _) as [s|]; simpl; [|eauto].
      unfold bind at 1.
      match goal with |- context [addLog ?t ?m ?md ?w0] =>
        destruct (addLog_fresh t m md w0 Hfresh) as [w1 ->] end.
      simpl. eauto. }
  pose proof (logout_frame w) as (Hu & Hv & Hb).
  rewrite Hrun in Hu, Hv, Hb. simpl in Hu, Hv, Hb.
  pose proof (logout_clears_session w w' Hrun) as Hs.
  exists w'. split_and!; try done.
  - unfold isAuthenticated, bind, getSession, bind, getsDB, ret; simpl.
    rewrite Hs, getAll_empty. simpl.
    first [reflexivity
          | repeat f_equal; apply bool_decide_eq_false; by intros [? ?]].
  - unfold getCurrentUser, try_catch, bind, getSession, bind, getsDB, ret; simpl.
    by rewrite Hs, getAll_empty.
Qed.

(** X12. Whatever calls of signup, login and logout are made, in whatever
    order and with whatever outcome, the users store keeps its shape: every
    user sits under its id, and no two users share a username or an email. *)
Theorem auth_calls_keep_users_unique (ops : list AuthOp) :
  users_ok (db (runOps ops initial)).
Proof.
  unfold runOps.
  assert (∀ w, users_ok (db w) →
               users_ok (db (fold_left (λ w op, runOp op w) ops w))) as Hinv.
  { induction ops as [|op ops IH]; intros w Hw; simpl; [done|].
    apply IH. destruct op as [username email password|username password|];
      unfold runOp, exec.
    - by apply signup_keeps_users_ok.
    - pose proof (login_frame username password w) as (Hu & _).
      unfold users_ok. by rewrite Hu.
    - pose proof (logout_frame w) as (Hu & _).
      unfold users_ok. by rewrite Hu. }
  apply Hinv, users_ok_empty.
Qed.

End AuthSequences.

(** ** More of the watch page *)

Section MoreWatchFacts.
Context `{RT : Runtime}.
Import Watch.

(** One load of the page of a stored video: the record is rewritten, then
    the view is logged. *)
Lemma loadVideo_run (w : World) (st : State) (videoId : string) (v : Video.t) :
  IDB.keyed Video.id (videos (db w)) →
  videos (db w) !! videoId = Some v →
  videoId ≠ "" →
  let updated := Video.with_views (Video.views v + 1) v in
  let related :=
    relatedTo videoId (IDB.getAllFromIndex Video.uploadedAt (videos (db w))) in
  let logged :=
    addLog LogType.view ("Watched video: " +:+ Video.caption v)
      (Some [("videoId", MetaStr videoId)])
      (mkWorld (set_videos (IDB.put videoId updated) (db w)) (tick w) (out w)) in
  loadVideo (Some videoId) st w =
  match logged with
  | (Ok _, w1) =>
      (Ok (setLoading false (setRelatedVideos related (setVideo updated st))), w1)
  | (Throw e, w1) =>
      (Ok (setLoading false st),
       mkWorld (db w1) (tick w1) (out w1 ++ [ConsoleError "Error loading video:"]))
  end.
Proof.
  intros Hkeyed Hstored Hne. cbv zeta.
  assert (Hid : Video.id v = videoId) by exact (Hkeyed _ _ Hstored).
  unfold loadVideo.
  destruct videoId as [|c videoId']; [done|]. simpl JsString.truthy. simpl negb.
  cbv iota. unfold bind at 1, try_catch, bind at 1, getAllVideos, getsDB. simpl.
  rewrite (find_getAllFromIndex Video.uploadedAt Video.id _ _ v Hkeyed Hstored).
  unfold bind at 1, updateVideo, modifyDB. simpl. rewrite Hid. unfold bind at 1.
  destruct (addLog _ _ _ _) as [[[]|e] w1]; reflexivity.
Qed.

Lemma loadVideo_step (w : World) (st : State) (videoId : string) (v : Video.t) :
  IDB.keyed Video.id (videos (db w)) →
  videos (db w) !! videoId = Some v →
  videoId ≠ "" →
  ∃ st' w', loadVideo (Some videoId) st w = (Ok st', w') ∧
    videos (db w') =
      <[videoId := Video.with_views (Video.views v + 1) v]> (videos (db w)).
Proof.
  intros Hkeyed Hstored Hne.
  rewrite (loadVideo_run w st videoId v Hkeyed Hstored Hne). cbv zeta.
  addLog_cases as (_ & Hvs & _); simpl in *; eexists _, _;
    (split; [reflexivity|]); simpl; by rewrite Hvs.
Qed.

(** X13. Views are counted per load, with no deduplication: [n] loads of the
    page of a stored video all complete and leave the stored record with its
    view count [n] higher and nothing else changed. *)
Theorem reload_counts_every_view (n : nat) (w : World) (st : State)
    (videoId : string) (v : Video.t) :
  IDB.keyed Video.id (videos (db w)) →
  videos (db w) !! videoId = Some v →
  videoId ≠ "" →
  ∃ st' w', reload n videoId st w = (Ok st', w') ∧
    videos (db w') !! videoId =
      Some (Video.with_views (Video.views v + Z.of_nat n) v) ∧
    (∀ k, k ≠ videoId → videos (db w') !! k = videos (db w) !! k).
Proof.
  revert w st v. induction n as [|n IH]; intros w st v Hkeyed Hstored Hne.
  - eexists _, _. split; [reflexivity|]. split; [|done].
    rewrite Hstored. f_equal. destruct v; unfold Video.with_views; simpl.
    f_equal. lia.
  - destruct (loadVideo_step w st videoId v Hkeyed Hstored Hne)
      as (st1 & w1 & Hrun & Hvs).
    assert (Hid : Video.id v = videoId) by exact (Hkeyed _ _ Hstored).
    destruct (IH w1 st1 (Video.with_views (Video.views v + 1) v))
      as (st' & w' & Hrest & Hv' & Hothers).
    + rewrite Hvs. apply map_Forall_insert_2; [exact Hid | exact Hkeyed].
    + rewrite Hvs. apply lookup_insert_eq.
    + exact Hne.
    + exists st', w'. cbn [reload]. rewrite Hrun. split; [exact Hrest|]. split.
      * rewrite Hv'. f_equal. unfold Video.with_views; simpl. f_equal. lia.
      * intros k Hk. rewrite (Hothers k Hk), Hvs. by apply lookup_insert_ne.
Qed.

(** X14. A load under the id of no stored video writes nothing and only ends
    the loading state; without an id, or with the empty id, the load returns
    at once and the page stays as it is, loading flag included. *)
Theorem loadVideo_unknown_video (w : World) (st : State) (videoId : string) :
  loadVideo None st w = (Ok st, w) ∧
  loadVideo (Some "") st w = (Ok st, w) ∧
  (IDB.keyed Video.id (videos (db w)) → videos (db w) !! videoId = None →
   videoId ≠ "" →
   loadVideo (Some videoId) st w = (Ok (setLoading false st), w)).
Proof.
  split; [reflexivity|]. split; [reflexivity|].
  intros Hkeyed Hnone Hne. unfold loadVideo.
  destruct videoId as [|c videoId']; [done|]. simpl JsString.truthy. simpl negb.
  cbv iota. unfold bind at 1, try_catch, bind at 1, getAllVideos, getsDB. simpl.
  by rewrite (find_getAllFromIndex_None Video.uploadedAt Video.id _ _ Hkeyed Hnone).
Qed.

(** X15. When the page of a stored video loads and the view is logged under
    an unused UUID, the page shows the updated record, and beside it at most
    six related videos, each of them stored and none of them the video being
    watched. *)
Theorem loadVideo_related_videos (w : World) (st : State)
    (videoId : string) (v : Video.t) :
  IDB.keyed Video.id (videos (db w)) →
  videos (db w) !! videoId = Some v →
  videoId ≠ "" →
  logs (db w) !! randomUUID_at (tick w) = None →
  ∃ st' w', loadVideo (Some videoId) st w = (Ok st', w') ∧
    video st' = Some (Video.with_views (Video.views v + 1) v) ∧
    loading st' = false ∧
    (length (relatedVideos st') ≤ 6)%nat ∧
    ∀ r, r ∈ relatedVideos st' →
         Video.id r ≠ videoId ∧ videos (db w) !! Video.id r = Some r.
Proof.
  intros Hkeyed Hstored Hne Hfresh.
  rewrite (loadVideo_run w st videoId v Hkeyed Hstored Hne). cbv zeta.
  match goal with |- context [addLog ?t ?m ?md ?w0] =>
    destruct (addLog_fresh t m md w0 Hfresh) as [w1 ->] end.
  eexists _, _. split; [reflexivity|]. simpl. split_and!; try done.
  - unfold relatedTo. rewrite length_take. lia.
  - intros r Hr. unfold relatedTo in Hr. apply subseteq_take in Hr.
    rewrite List_filter_as_filter in Hr.
    apply list_elem_of_filter in Hr as [Hid Hin].
    apply negb_true_iff, String.eqb_neq in Hid. split; [done|].
    apply getAllFromIndex_elem in Hin as [k Hk].
    by rewrite (Hkeyed k r Hk).
Qed.

(** X16. The owner's delete, once confirmed and with an unused UUID for the
    log entry, completes: the video record is gone, the blob of a local video
    is gone too, every other video and blob, the users and the session are
    untouched, one log entry is added, and the page announces the deletion
    and navigates to the feed. *)
Theorem handleDelete_owner_removes (w : World) (st : State)
    (u : User.t) (v : Video.t) :
  video st = Some v →
  User.id u = Video.userId v →
  confirm_at (tick w) = true →
  logs (db w) !! randomUUID_at (S (tick w)) = None →
  ∃ w', handleDelete (Some u) st w = (Ok tt, w') ∧
    videos (db w') = base.delete (Video.id v) (videos (db w)) ∧
    videos (db w') !! Video.id v = None ∧
    videoBlobs (db w') =
      (if JsString.startsWith (Video.cloudinaryUrl v) "local://"
       then base.delete (JsString.replace (Video.cloudinaryUrl v) "local://" "")
                        (videoBlobs (db w))
       else videoBlobs (db w)) ∧
    users (db w') = users (db w) ∧ session (db w') = session (db w) ∧
    size (logs (db w')) = S (size (logs (db w))) ∧
    out w' = (out w ++ [Toast "Video deleted" "The video has been removed" Default;
                        Navigate "/feed"])%list.
Proof.
  intros Hv Howner Hconfirm Hfresh. unfold handleDelete. rewrite Hv.
  apply String.eqb_eq in Howner. rewrite Howner. simpl negb. cbv iota.
  unfold bind at 1, reading. simpl. rewrite Hconfirm. simpl negb. cbv iota.
  unfold try_catch. unfold bind at 1.
  destruct (JsString.startsWith (Video.cloudinaryUrl v) "local://");
    unfold deleteVideoBlob, deleteVideo, modifyDB, ret, bind at 1; simpl;
    unfold bind at 1;
    (match goal with |- context [addLog ?t ?m ?md ?w0] =>
       pose proof (addLog_frame t m md w0) as (Hu & Hvs & Hb & Hs & Ho & _);
       destruct (addLog_appends_fresh t m md w0 Hfresh) as (w1 & Hrun & Hsz & _)
     end);
    rewrite Hrun in *; simpl in *; unfold bind, emit; simpl;
    (eexists; split; [reflexivity|]); simpl;
    rewrite Hu, Hvs, Hb, Hs, Ho, Hsz; unfold IDB.delete;
    (split_and!; try done; [apply lookup_delete_eq | by rewrite <- app_assoc]).
Qed.

(** X17. When the owner answers no to the confirmation, the delete stops
    there: no store is written and nothing is announced.  And with nobody
    logged in, or no video shown, like, comment and delete do nothing at
    all. *)
Theorem handlers_without_consent_or_user (w : World) (st : State)
    (u : User.t) (v : Video.t) :
  (video st = Some v → User.id u = Video.userId v →
   confirm_at (tick w) = false →
   handleDelete (Some u) st w = (Ok tt, mkWorld (db w) (S (tick w)) (out w))) ∧
  handleLike None st w = (Ok st, w) ∧
  handleComment None st w = (Ok st, w) ∧
  handleDelete None st w = (Ok tt, w) ∧
  (video st = None →
   handleLike (Some u) st w = (Ok st, w) ∧
   handleComment (Some u) st w = (Ok st, w) ∧
   handleDelete (Some u) st w = (Ok tt, w)).
Proof.
  split_and!.
  - intros Hv Howner Hconfirm. unfold handleDelete. rewrite Hv.
    apply String.eqb_eq in Howner. rewrite Howner. simpl negb. cbv iota.
    unfold bind at 1, reading. simpl. by rewrite Hconfirm.
  - unfold handleLike. by destruct (video st).
  - unfold handleComment. by destruct (video st).
  - unfold handleDelete. by destruct (video st).
  - intros Hv. unfold handleLike, handleComment, handleDelete. by rewrite Hv.
Qed.

End MoreWatchFacts.

(** ** The feed, the upload page and the demo-mode ingestion *)

Section FeedUploadFacts.
Context `{RT : Runtime}.

(** X18. A like on the feed, logged under an unused UUID, completes and
    always counts up: the record stored under the video's id becomes the
    displayed copy with one more like, whatever was stored there before; the
    other stored videos are untouched.  The list on the page keeps its length
    and order: entries with that id show the new record, the others are
    unchanged. *)
Theorem Feed_handleLike_counts_up (w : World) (st : Feed.State) (video : Video.t) :
  logs (db w) !! randomUUID_at (tick w) = None →
  let updated := Video.with_likes (Video.likes video + 1) video in
  ∃ st' w', Feed.handleLike video st w = (Ok st', w') ∧
    videos (db w') !! Video.id video = Some updated ∧
    (∀ k, k ≠ Video.id video → videos (db w') !! k = videos (db w) !! k) ∧
    length (Feed.shown st') = length (Feed.shown st) ∧
    (∀ i x, Feed.shown st !! i = Some x →
       Feed.shown st' !! i =
         Some (if decide (Video.id x = Video.id video) then updated else x)).
Proof.
  intros Hfresh. cbv zeta. unfold Feed.handleLike.
  unfold bind at 1, updateVideo, modifyDB. simpl. unfold bind at 1.
  match goal with |- context [addLog ?t ?m ?md ?w0] =>
    pose proof (addLog_frame t m md w0) as (_ & Hvs & _);
    destruct (addLog_fresh t m md w0 Hfresh) as [w1 Hrun] end.
  rewrite Hrun in *. simpl in *. eexists _, _. split; [reflexivity|]. simpl.
  rewrite Hvs. unfold IDB.put. split_and!.
  - apply lookup_insert_eq.
  - intros k Hk. by apply lookup_insert_ne.
  - apply length_map.
  - intros i x Hx.
    change (map ?f ?l) with (f <$> l). rewrite list_lookup_fmap, Hx. simpl.
    f_equal. case_decide as Hid.
    + by rewrite (proj2 (String.eqb_eq _ _) Hid).
    + by rewrite (proj2 (String.eqb_neq _ _) Hid).
Qed.

(** X19. The upload is refused before anything is sent or stored when the
    caption is empty or only whitespace: the page stays as it is and asks for
    a caption.  Without a chosen file, or with nobody logged in, the handler
    does nothing at all. *)
Theorem handleUpload_needs_file_user_caption (w : World) (st : Upload.State)
    (user : option User.t) (browser : Browser)
    (remote : M (Awaited CloudinaryUploadResponse)) :
  (Upload.file st = None ∨ user = None →
   Upload.handleUpload user browser remote st w = (Ok (Upload.Returned st []), w)) ∧
  (is_Some (Upload.file st) → is_Some user →
   JsString.trim (Upload.caption st) = "" →
   Upload.handleUpload user browser remote st w =
   (Ok (Upload.Returned st []),
    mkWorld (db w) (tick w)
      (out w ++ [Toast "Caption required" "Please add a caption for your video"
                       Destructive]))).
Proof.
  split.
  - intros [Hf | ->]; unfold Upload.handleUpload.
    + by rewrite Hf.
    + by destruct (Upload.file st).
  - intros [f Hf] [u ->] Hblank. unfold Upload.handleUpload.
    by rewrite Hf, Hblank.
Qed.

Lemma simulateProgress_silent ticks progress w :
  ∃ p, simulateProgress ticks progress (Some (λ _ w, w)) w = (Ok p, w).
Proof.
  revert progress. induction ticks as [|k IH]; intros progress; simpl.
  - unfold ret. eauto.
  - unfold bind at 1. case_bool_decide; [unfold ret; eauto | apply IH].
Qed.

(** X20. An upload in demo mode, with a file, a user and a caption that
    trims to something.  When the browser cannot decode the file the handler
    never returns: it waits at the upload with the form marked as uploading,
    and nothing is stored or shown.  When the browser decodes the file and
    the UUIDs drawn are unused, the handler returns: it has stored one new
    video owned by the user, with the [local://] URI of the upload, the
    trimmed caption, the parsed tags, no views, no likes and no comments, and
    one log entry; the other videos are left alone, the form is reset and the
    timer that leads to the feed is set.  If the engine stored the blob, the
    media URI of the stored video resolves on the watch page to the blob of
    the uploaded file; if the engine refused it, the video is stored all the
    same, the blobs are as before and the console carries the warning. *)
Theorem handleUpload_outcomes (w : World) (st : Upload.State)
    (u : User.t) (f : File.t) (browser : Browser)
    (remote : M (Awaited CloudinaryUploadResponse)) :
  Upload.file st = Some f →
  JsString.trim (Upload.caption st) ≠ "" →
  let busy := Upload.mkState (Some f) (Upload.caption st) (Upload.tags st) true in
  let publicId := "local_" +:+ pretty (now_at (tick w)) in
  (decodes browser f = None →
     Upload.handleUpload (Some u) browser remote st w =
       (Ok (Upload.Waiting busy), w)) ∧
  (∀ media, decodes browser f = Some media →
     videos (db w) !! randomUUID_at (S (tick w)) = None →
     logs (db w) !! randomUUID_at (3 + tick w) = None →
     ∃ w' v,
       Upload.handleUpload (Some u) browser remote st w =
         (Ok (Upload.Returned (Upload.mkState None "" "" false)
                [(1000, Navigate "/feed")]), w') ∧
       videos (db w') !! Video.id v = Some v ∧
       (∀ k, k ≠ Video.id v → videos (db w') !! k = videos (db w) !! k) ∧
       Video.cloudinaryUrl v = "local://" +:+ publicId ∧
       Video.userId v = User.id u ∧ Video.username v = User.username u ∧
       Video.caption v = JsString.trim (Upload.caption st) ∧
       Video.tags v = Upload.parseTags (Upload.tags st) ∧
       Video.views v = 0 ∧ Video.likes v = 0 ∧ Video.comments v = [] ∧
       Video.uploadedAt v = now_at (S (S (tick w))) ∧
       size (logs (db w')) = S (size (logs (db w))) ∧
       (refuses browser (File.blob f) = None →
          videoBlobs (db w') = <[publicId := File.blob f]> (videoBlobs (db w)) ∧
          ∀ page, Watch.video page = Some v →
            ∃ page',
              Watch.resolveLocalUrl page w' = (Ok (page', Some (File.blob f)), w') ∧
              Watch.videoError page' = false ∧
              Watch.videoRef page' =
                ((λ _, Watch.SrcObjectURL (File.blob f)) <$> Watch.videoRef page)) ∧
       (is_Some (refuses browser (File.blob f)) →
          videoBlobs (db w') = videoBlobs (db w) ∧
          ConsoleWarn "Failed to save video blob to IndexedDB" ∈ out w')).
Proof.
  intros Hf Hcap. cbv zeta.
  destruct (simulateProgress_silent 10 0 w) as (p & Hsim).
  destruct (JsString.trim (Upload.caption st)) as [|c cap] eqn:Ecap; [done|].
  split.
  - intros Hdec. unfold Upload.handleUpload. rewrite Hf, Ecap.
    change (negb (JsString.truthy (String c cap))) with false. cbv iota zeta.
    unfold try_catch, bind.
    change (uploadVideoToCloudinary remote f (Some (λ _ w0, w0)) browser w)
      with (mockUpload f (Some (λ (_ : Z) (w0 : World), w0)) browser w).
    rewrite (mockUpload_undecoded _ _ _ _ _ _ Hsim Hdec). reflexivity.
  - intros media Hdec Hvid Hlid. unfold Upload.handleUpload. rewrite Hf, Ecap.
    change (negb (JsString.truthy (String c cap))) with false. cbv iota zeta.
    unfold try_catch, bind.
    change (uploadVideoToCloudinary remote f (Some (λ _ w0, w0)) browser w)
      with (mockUpload f (Some (λ (_ : Z) (w0 : World), w0)) browser w).
    rewrite (mockUpload_decoded _ _ _ _ _ _ _ Hsim Hdec). cbv zeta. clear Hsim.
    destruct (refuses browser (File.blob f)) as [e|] eqn:Href;
      unfold randomUUID, Date_now, reading, saveVideo, addTo, IDB.add; simpl;
      rewrite Hvid; simpl;
      match goal with |- context [addLog ?t ?m ?md ?w0] =>
        pose proof (addLog_frame t m md w0) as (_ & Hvs & Hb & _ & Ho & _);
        destruct (addLog_appends_fresh t m md w0 Hlid) as (w1 & Hrun & Hsz & _)
      end;
      rewrite Hrun in *; simpl in *; unfold emit, ret; simpl;
      (eexists _, _; split; [reflexivity|]); simpl; rewrite Hvs;
      (split; [apply lookup_insert_eq|]);
      (split; [intros k Hk; by apply lookup_insert_ne|]);
      split_and!; try done.
    + intros _. split; [by rewrite Hb|].
      rewrite Ho. apply elem_of_app. left. apply elem_of_app. right.
      apply list_elem_of_singleton. reflexivity.
    + intros _. split; [by rewrite Hb|].
      intros page Hpage.
      rewrite (resolveLocalUrl_stored _ page _ _ (File.blob f) Hpage eq_refl)
        by (simpl; rewrite Hb; simpl; unfold IDB.put; apply lookup_insert_eq).
      unfold Watch.found. eexists. split; [reflexivity|]. simpl.
      split; [done|]. by destruct (Watch.videoRef page).
Qed.

(** X21. The demo upload reports progress exactly ten times, with 10, 20,
    up to 100 in this order.  For a file the browser cannot decode it then
    stays pending, in the world the ten reports have left.  For a file the
    browser decodes it reads the clock once and settles with the identifier
    [local_<clock reading>] and the readings of the browser; before that it
    has stored the blob under the identifier or, when the engine refuses the
    write, has only warned on the console. *)
Theorem mockUpload_reports_progress (w : World) (file : File.t)
    (onProgress : Z → World → World) (browser : Browser) :
  let reported := fold_left (λ w p, onProgress p w) demoProgress w in
  let publicId := "local_" +:+ pretty (now_at (tick reported)) in
  simulateProgress 10 0 (Some onProgress) w = (Ok 100, reported) ∧
  (decodes browser file = None →
     mockUpload file (Some onProgress) browser w = (Ok Pending, reported)) ∧
  (∀ media, decodes browser file = Some media →
     ∃ resp w',
       mockUpload file (Some onProgress) browser w = (Ok (Settled resp), w') ∧
       public_id resp = publicId ∧
       duration resp = video_duration media ∧
       width resp = videoWidth media ∧ height resp = videoHeight media ∧
       thumbnail_url resp = toDataURL media ∧
       tick w' = S (tick reported) ∧
       (refuses browser (File.blob file) = None →
          db w' = set_videoBlobs (IDB.put publicId (File.blob file)) (db reported) ∧
          out w' = out reported) ∧
       (is_Some (refuses browser (File.blob file)) →
          db w' = db reported ∧
          out w' = (out reported
                    ++ [ConsoleWarn "Failed to save video blob to IndexedDB"])%list)).
Proof.
  cbv zeta.
  assert (simulateProgress 10 0 (Some onProgress) w =
          (Ok 100, fold_left (λ w p, onProgress p w) demoProgress w)) as Hsim
    by reflexivity.
  split; [exact Hsim|]. split.
  - intros Hdec. by rewrite (mockUpload_undecoded _ _ _ _ _ _ Hsim Hdec).
  - intros media Hdec.
    rewrite (mockUpload_decoded _ _ _ _ _ _ _ Hsim Hdec). cbv zeta.
    eexists _, _. split; [reflexivity|]. simpl.
    destruct (refuses browser (File.blob file)) as [e|]; simpl;
      split_and!; try done; by intros [? ?].
Qed.

End FeedUploadFacts.

(** ** The authentication context and the route guard *)

Section ContextFacts.
Context `{RT : Runtime}.

Lemma head_getAll_None {V} (m : gmap string V) :
  head (IDB.getAll m) = None ↔ m = ∅.
Proof.
  rewrite head_None. split.
  - intros Hnil. apply map_size_empty_iff.
    by rewrite <- getAll_length, Hnil.
  - intros ->. apply getAll_empty.
Qed.

(** One completed [logout]. *)
Lemma logout_run_ok (w : World) :
  session (db w) = ∅ ∨ logs (db w) !! randomUUID_at (tick w) = None →
  ∃ w', logout w = (Ok tt, w') ∧ session (db w') = ∅ ∧ out w' = out w.
Proof.
  intros Hpre.
  unfold logout, bind at 1, getSession, bind at 1, getsDB, ret. simpl.
  destruct Hpre as [Hempty | Hfresh].
  - rewrite Hempty, getAll_empty. simpl. eauto.
  - destruct (head _) as [s|]; simpl; [|eauto].
    unfold bind at 1.
    match goal with |- context [addLog ?t ?m ?md ?w0] =>
      pose proof (addLog_frame t m md w0) as (_ & _ & _ & _ & Ho & _);
      destruct (addLog_fresh t m md w0 Hfresh) as [w1 Hrun] end.
    rewrite Hrun in *. simpl in *. eauto.
Qed.

(** X22. Refreshing the context always completes, writes nothing and ends
    the loading state.  Afterwards the context is authenticated exactly when
    the session store holds a record, and the guard then renders the page;
    otherwise the guard redirects to /login.  A user is known only when
    authenticated, and is the user stored under the id of the first session
    record; a session whose user is missing leaves the context authenticated
    with no user. *)
Theorem refreshUser_follows_the_session (w : World) (ctx : AuthContext.State) :
  ∃ ctx', AuthContext.refreshUser ctx w = (Ok ctx', w) ∧
    AuthContext.loading ctx' = false ∧
    (AuthContext.isAuth ctx' = true ↔ session (db w) ≠ ∅) ∧
    (ProtectedRoute ctx' = Children ↔ session (db w) ≠ ∅) ∧
    (ProtectedRoute ctx' = RedirectTo "/login" ↔ session (db w) = ∅) ∧
    (∀ u, AuthContext.user ctx' = Some u →
       AuthContext.isAuth ctx' = true ∧
       ∃ s, head (IDB.getAll (session (db w))) = Some s ∧
            users (db w) !! Session.userId s = Some u) ∧
    (∀ s, head (IDB.getAll (session (db w))) = Some s →
       users (db w) !! Session.userId s = None →
       AuthContext.isAuth ctx' = true ∧ AuthContext.user ctx' = None).
Proof.
  unfold AuthContext.refreshUser, try_catch, bind, isAuthenticated,
    getCurrentUser, try_catch, bind, getSession, bind, getsDB, ret,
    getUserById, getsDB, IDB.get; simpl.
  pose proof (head_getAll_None (session (db w))) as Hnone.
  destruct (head (IDB.getAll (session (db w)))) as [s|] eqn:Hhead; simpl;
    rewrite ?Hhead; simpl.
  - assert (session (db w) ≠ ∅) as Hne.
    { intros He. apply Hnone in He. discriminate. }
    eexists. split; [reflexivity|]. unfold ProtectedRoute; simpl.
    split_and!; try done.
    + intros u Hu. split; [done|]. eauto.
    + intros s' [= <-] Hmiss. by rewrite Hmiss.
  - assert (session (db w) = ∅) as He by by apply Hnone.
    eexists. split; [reflexivity|]. unfold ProtectedRoute; simpl.
    split_and!; try done.
Qed.

(** X23. Logging out from the navigation bar, with no session stored or an
    unused UUID for the log entry, completes: the session store is empty, the
    context holds no user and is unauthenticated, the page navigates to
    /login, and a guarded route then redirects to /login, also after the
    context is refreshed. *)
Theorem handleLogout_signs_out (w : World) (ctx : AuthContext.State) :
  session (db w) = ∅ ∨ logs (db w) !! randomUUID_at (tick w) = None →
  ∃ ctx' w', Navbar.handleLogout ctx w = (Ok ctx', w') ∧
    session (db w') = ∅ ∧
    AuthContext.user ctx' = None ∧ AuthContext.isAuth ctx' = false ∧
    out w' = (out w ++ [Navigate "/login"])%list ∧
    (AuthContext.loading ctx = false → ProtectedRoute ctx' = RedirectTo "/login") ∧
    ∃ ctx'', AuthContext.refreshUser ctx' w' = (Ok ctx'', w') ∧
      AuthContext.isAuth ctx'' = false ∧
      ProtectedRoute ctx'' = RedirectTo "/login".
Proof.
  intros Hpre. destruct (logout_run_ok w Hpre) as (w1 & Hrun & Hs & Ho).
  unfold Navbar.handleLogout, AuthContext.logout, bind, emit, ret.
  rewrite Hrun. simpl. eexists _, _. split; [reflexivity|]. simpl.
  split; [exact Hs|]. split; [done|]. split; [done|].
  split; [by rewrite Ho|]. split.
  - intros Hl. unfold ProtectedRoute; simpl. by rewrite Hl.
  - unfold AuthContext.refreshUser, try_catch, bind, isAuthenticated,
      getCurrentUser, try_catch, bind, getSession, bind, getsDB, ret; simpl.
    rewrite Hs, getAll_empty. simpl. eexists. split; [reflexivity|]. done.
Qed.

End ContextFacts.

(** ** The search page *)

Section SearchFacts.
Context `{RT : Runtime}.

Lemma prefix_refl (s : string) : String.prefix s s = true.
Proof.
  induction s as [|c s IH]; [done|]. simpl.
  destruct (ascii_dec c c) as [_|Hn]; [exact IH | by destruct Hn].
Qed.

Lemma includes_refl (s : string) : JsString.includes s s = true.
Proof. destruct s; [done|]. cbn [JsString.includes]. by rewrite prefix_refl. Qed.

(** The test of the filter, spelled out. *)
Lemma matches_spec (lowercaseQuery : string) (v : Video.t) :
  Search.matches lowercaseQuery v = true ↔
  JsString.includes (Search.toLowerCase (Video.caption v)) lowercaseQuery = true ∨
  JsString.includes (Search.toLowerCase (Video.username v)) lowercaseQuery = true ∨
  ∃ tag, tag ∈ Video.tags v ∧
         JsString.includes (Search.toLowerCase tag) lowercaseQuery = true.
Proof.
  unfold Search.matches. rewrite !orb_true_iff, existsb_exists.
  setoid_rewrite list_elem_of_In. tauto.
Qed.

(** [addLog] either stores its entry under the UUID it draws, or finds the
    UUID taken and fails with the store as it was. *)
Lemma addLog_outcome type message metadata w :
  let k := randomUUID_at (tick w) in
  let entry := Log.mk k type message (now_at (S (tick w))) metadata in
  let w' := (addLog type message metadata w).2 in
  (logs (db w) !! k = None ∧ (addLog type message metadata w).1 = Ok tt ∧
   logs (db w') = <[k := entry]> (logs (db w))) ∨
  (is_Some (logs (db w) !! k) ∧
   (addLog type message metadata w).1 = Throw ConstraintError ∧
   logs (db w') = logs (db w)).
Proof.
  cbv zeta.
  unfold addLog, bind, randomUUID, Date_now, reading, addTo, IDB.add; simpl.
  destruct (logs (db w) !! randomUUID_at (tick w)) eqn:E; simpl.
  - right. eauto.
  - left. eauto.
Qed.

(** X24. A blank query shows every loaded video and writes nothing.  Any
    other query shows, in their loaded order, exactly the loaded videos whose
    caption, owner name or one of whose tags, put in lower case, contains the
    query put in lower case; so a video whose caption is the query in another
    case is shown.  The search touches no video, user, session or blob.  It
    writes at most one log entry and keeps the entries there are: a query of
    more than two characters is logged, when the UUID drawn is unused, as one
    [search] entry with the query and the number of results; a query of one
    or two characters is never logged. *)
Theorem Search_onQueryChange_filters (w : World) (st : Search.State) :
  let q := Search.query st in
  let contains (s : string) :=
    JsString.includes (Search.toLowerCase s) (Search.toLowerCase q) = true in
  ∃ st' w', Search.onQueryChange st w = (Ok st', w') ∧
    Search.query st' = q ∧
    Search.allVideos st' = Search.allVideos st ∧
    videos (db w') = videos (db w) ∧ users (db w') = users (db w) ∧
    session (db w') = session (db w) ∧
    videoBlobs (db w') = videoBlobs (db w) ∧
    (size (logs (db w')) ≤ S (size (logs (db w))))%nat ∧
    (∀ k e, logs (db w) !! k = Some e → logs (db w') !! k = Some e) ∧
    (JsString.trim q = "" →
       Search.filteredVideos st' = Search.allVideos st ∧ w' = w) ∧
    (JsString.trim q ≠ "" →
       Search.filteredVideos st' `sublist_of` Search.allVideos st ∧
       (∀ v, v ∈ Search.filteredVideos st' ↔
             v ∈ Search.allVideos st ∧
             (contains (Video.caption v) ∨ contains (Video.username v) ∨
              ∃ tag, tag ∈ Video.tags v ∧ contains tag)) ∧
       (∀ v, v ∈ Search.allVideos st →
             Search.toLowerCase (Video.caption v) = Search.toLowerCase q →
             v ∈ Search.filteredVideos st') ∧
       ((2 < String.length q)%nat →
        logs (db w) !! randomUUID_at (tick w) = None →
        logs (db w') =
          <[randomUUID_at (tick w) :=
              Log.mk (randomUUID_at (tick w)) LogType.search
                ("Searched for: " +:+ q) (now_at (S (tick w)))
                (Some [("query", MetaStr q);
                       ("resultsCount",
                        MetaNum (Z.of_nat (length (Search.filteredVideos st'))))])]>
          (logs (db w)))) ∧
    ((String.length q ≤ 2)%nat → w' = w).
Proof.
  cbv zeta. unfold Search.onQueryChange.
  destruct (JsString.trim (Search.query st)) as [|c q] eqn:Etrim.
  - eexists _, _. split; [reflexivity|]. simpl. split_and!; try done. lia.
  - change (JsString.truthy (String c q)) with true. cbv iota beta zeta.
    set (results := List.filter _ _).
    assert (Hmem : ∀ v, v ∈ results ↔
      v ∈ Search.allVideos st ∧
      Search.matches (Search.toLowerCase (Search.query st)) v = true).
    { intros v. unfold results.
      rewrite List_filter_as_filter, list_elem_of_filter. tauto. }
    assert (Hsub : results `sublist_of` Search.allVideos st).
    { unfold results. rewrite List_filter_as_filter. apply sublist_filter. }
    assert (Hcase : ∀ v, v ∈ Search.allVideos st →
      Search.toLowerCase (Video.caption v) =
        Search.toLowerCase (Search.query st) → v ∈ results).
    { intros v Hin Heq. apply Hmem. split; [done|].
      unfold Search.matches. by rewrite Heq, includes_refl. }
    assert (Hdisj : ∀ v, v ∈ results ↔
      v ∈ Search.allVideos st ∧
      (JsString.includes (Search.toLowerCase (Video.caption v))
         (Search.toLowerCase (Search.query st)) = true ∨
       JsString.includes (Search.toLowerCase (Video.username v))
         (Search.toLowerCase (Search.query st)) = true ∨
       ∃ tag, tag ∈ Video.tags v ∧
         JsString.includes (Search.toLowerCase tag)
           (Search.toLowerCase (Search.query st)) = true)).
    { intros v. rewrite Hmem, matches_spec. tauto. }
    unfold bind. destruct (2 <? String.length (Search.query st))%nat eqn:Hlen.
    + apply Nat.ltb_lt in Hlen. unfold try_catch. cbv beta.
      match goal with |- context [addLog ?t ?m ?md ?w0] =>
        pose proof (addLog_frame t m md w0) as (Hu & Hv & Hb & Hs & _);
        pose proof (addLog_outcome t m md w0) as Hout;
        destruct (addLog t m md w0) as [[[]|e] w1]
      end; simpl in *;
        (eexists _, _; split; [reflexivity|]); simpl;
        destruct Hout as [(Hfresh & Hres & Hlogs) | (Htaken & Hres & Hlogs)];
        try discriminate; rewrite Hlogs;
        split_and!; try done; try lia.
      * by rewrite (map_size_insert_None _ _ _ Hfresh).
      * intros k e0 Hk. rewrite lookup_insert_ne; [done|]. congruence.
      * intros _. split_and!; try done.
        intros _ Hnone. destruct Htaken as [x Hx]. congruence.
    + unfold ret. eexists _, _. split; [reflexivity|]. simpl.
      apply Nat.ltb_ge in Hlen. split_and!; try done; [lia|].
      intros _. split_and!; try done. intros Hlong. lia.
Qed.

End SearchFacts.

(** ** Further scenarios on the demo runtime *)

Section MoreScenarios.
Local Existing Instance demoRuntime.

Lemma keyed_w_clip : IDB.keyed Video.id (videos (db w_clip)).
Proof. apply map_Forall_singleton. reflexivity. Qed.

Lemma Profile_lists_witness :
  ∃ st', Profile.loadUserVideos (Some alice) (Profile.mkState [] true) w_clip =
           (Ok st', w_clip) ∧
    clip ∈ Profile.shown st' ∧ Profile.totalViews st' = 0.
Proof.
  destruct (Profile_lists_the_users_videos w_clip alice (Profile.mkState [] true)
              keyed_w_clip)
    as (st' & Hrun & _ & Hmem & _ & l & Hl & _ & Hviews & _).
  exists st'. split; [exact Hrun|]. split.
  - apply Hmem. split; [|reflexivity]. exists "v1". apply lookup_singleton_eq.
  - rewrite Hviews. injection Hl as <-. vm_compute. reflexivity.
Defined.

Lemma signup_creates_witness :
  ∃ u w', signup "alice" "a@x.com" "pw1" initial =
            (Ok (mkAuthResult true "Account created successfully" (Some u)), w') ∧
    User.username u = "alice" ∧ size (users (db w')) = 1%nat ∧
    session (db w') = ∅.
Proof.
  destruct (signup_creates_one_account initial "alice" "a@x.com" "pw1")
    as (u & w' & Hrun & Hn & _ & _ & _ & _ & Hsz & _ & _ & _ & Hs).
  - intros k u Hk. change (users (db initial)) with (∅ : gmap string User.t) in Hk.
    by rewrite lookup_empty in Hk.
  - apply lookup_empty.
  - apply lookup_empty.
  - exists u, w'. split; [exact Hrun|]. split; [exact Hn|].
    split; [exact Hsz | exact Hs].
Defined.

Lemma signup_then_login_witness :
  ∃ u w1 w2,
    signup "alice" "a@x.com" "pw1" initial =
      (Ok (mkAuthResult true "Account created successfully" (Some u)), w1) ∧
    login "alice" "pw1" w1 =
      (Ok (mkAuthResult true "Login successful" (Some u)), w2) ∧
    isAuthenticated w2 = (Ok true, w2).
Proof.
  destruct (signup_then_login_succeeds initial "alice" "a@x.com" "pw1")
    as (u & w1 & w2 & H1 & H2 & _ & H3).
  - intros k u Hk. change (users (db initial)) with (∅ : gmap string User.t) in Hk.
    by rewrite lookup_empty in Hk.
  - apply lookup_empty.
  - intros i _. apply lookup_empty.
  - reflexivity.
  - exists u, w1, w2. split; [exact H1|]. split; [exact H2 | exact H3].
Defined.

Lemma login_alice_run :
  login "alice" "pw1" w_both =
  (Ok (mkAuthResult true "Login successful" (Some alice)), w_in).
Proof. vm_compute. reflexivity. Qed.

Lemma login_success_witness :
  ∃ u, Some alice = Some u ∧ User.username u = "alice" ∧
    is_Some (session (db w_in) !! User.id u) ∧
    isAuthenticated w_in = (Ok true, w_in) ∧
    users (db w_in) = users (db w_both).
Proof.
  destruct (login_success_authenticates w_both w_in "alice" "pw1"
              (mkAuthResult true "Login successful" (Some alice))
              login_alice_run eq_refl)
    as (u & Hu & Hn & Hs & Hauth & Hus & _).
  exists u. split; [exact Hu|]. split; [exact Hn|].
  split; [rewrite Hs; eauto|]. split; [exact Hauth | exact Hus].
Defined.

Lemma logout_ends_witness :
  ∃ w', logout w_in = (Ok tt, w') ∧ session (db w') = ∅ ∧
    isAuthenticated w' = (Ok false, w') ∧ getCurrentUser w' = (Ok None, w').
Proof.
  destruct (logout_ends_the_session w_in) as (w' & Hrun & Hs & Ha & Hc & _).
  - right. vm_compute. reflexivity.
  - exists w'. split; [exact Hrun|]. split; [exact Hs|].
    split; [exact Ha | exact Hc].
Defined.

Lemma reload_witness :
  ∃ st' w', reload 3 "v1" (page clip "") w_clip = (Ok st', w') ∧
    (Video.views <$> videos (db w') !! "v1") = Some 3.
Proof.
  destruct (reload_counts_every_view 3 w_clip (page clip "") "v1" clip
              keyed_w_clip)
    as (st' & w' & Hrun & Hv & _).
  - apply lookup_singleton_eq.
  - discriminate.
  - exists st', w'. split; [exact Hrun|]. rewrite Hv. reflexivity.
Defined.

Lemma loadVideo_related_witness :
  ∃ st' w', Watch.loadVideo (Some "v1") (page clip "") w_clip = (Ok st', w') ∧
    (Video.views <$> Watch.video st') = Some 1 ∧
    (length (Watch.relatedVideos st') ≤ 6)%nat.
Proof.
  destruct (loadVideo_related_videos w_clip (page clip "") "v1" clip keyed_w_clip)
    as (st' & w' & Hrun & Hv & _ & Hlen & _).
  - apply lookup_singleton_eq.
  - discriminate.
  - apply lookup_empty.
  - exists st', w'. split; [exact Hrun|]. split; [by rewrite Hv | exact Hlen].
Defined.

Lemma handleDelete_owner_witness :
  ∃ w', Watch.handleDelete (Some alice) (page clip "") w_clip = (Ok tt, w') ∧
    videos (db w') !! "v1" = None ∧ users (db w') = users (db w_clip).
Proof.
  destruct (handleDelete_owner_removes w_clip (page clip "") alice clip)
    as (w' & Hrun & _ & Hgone & _ & Hu & _).
  - reflexivity.
  - reflexivity.
  - reflexivity.
  - apply lookup_empty.
  - exists w'. split; [exact Hrun|]. split; [exact Hgone | exact Hu].
Defined.

Lemma Feed_handleLike_witness :
  ∃ st' w', Feed.handleLike clip (Feed.mkState [clip] false) w_clip = (Ok st', w') ∧
    (Video.likes <$> videos (db w') !! "v1") = Some 1 ∧
    length (Feed.shown st') = 1%nat.
Proof.
  destruct (Feed_handleLike_counts_up w_clip (Feed.mkState [clip] false) clip)
    as (st' & w' & Hrun & Hv & _ & Hlen & _).
  - apply lookup_empty.
  - exists st', w'. split; [exact Hrun|]. split; [|exact Hlen].
    change (Video.id clip) with "v1" in Hv. by rewrite Hv.
Defined.

Lemma handleUpload_witness :
  (* the file is decoded and its blob stored *)
  (∃ w' v page',
     Upload.handleUpload (Some alice) demoBrowser (ret Pending) uploadForm w_clip =
       (Ok (Upload.Returned (Upload.mkState None "" "" false)
              [(1000, Navigate "/feed")]), w') ∧
     videos (db w') !! Video.id v = Some v ∧
     Video.cloudinaryUrl v = "local://local_1700000000020" ∧
     Video.caption v = "Hi" ∧ Video.tags v = ["demo"; "first"] ∧
     Video.views v = 0 ∧
     Watch.resolveLocalUrl (page v "") w' =
       (Ok (page', Some (File.blob demoFile)), w') ∧
     Watch.videoRef page' = Some (Watch.SrcObjectURL (File.blob demoFile))) ∧
  (* the quota is used up: the video is stored, its blob is not *)
  (∃ w' v,
     Upload.handleUpload (Some alice) fullBrowser (ret Pending) uploadForm w_clip =
       (Ok (Upload.Returned (Upload.mkState None "" "" false)
              [(1000, Navigate "/feed")]), w') ∧
     videos (db w') !! Video.id v = Some v ∧
     Video.cloudinaryUrl v = "local://local_1700000000020" ∧
     videoBlobs (db w') = ∅) ∧
  (* the file cannot be decoded: the handler waits for ever *)
  Upload.handleUpload (Some alice) demoBrowser (ret Pending)
    (Upload.mkState (Some brokenFile) "Hi" "" false) w_clip =
    (Ok (Upload.Waiting (Upload.mkState (Some brokenFile) "Hi" "" true)), w_clip).
Proof.
  split_and!.
  - destruct (handleUpload_outcomes w_clip uploadForm alice demoFile demoBrowser
                (ret Pending) eq_refl) as (_ & Hdone); [discriminate|].
    destruct (Hdone demoMedia eq_refl)
      as (w' & v & Hrun & Hv & _ & Hurl & _ & _ & Hcap & Htags & Hviews & _ & _
          & _ & _ & Hstored & _); [reflexivity | apply lookup_empty |].
    destruct (Hstored eq_refl) as (_ & Hplay).
    destruct (Hplay (page v "") eq_refl) as (page' & Hres & _ & Href).
    exists w', v, page'. split; [exact Hrun|]. split; [exact Hv|].
    split; [rewrite Hurl; vm_compute; reflexivity|].
    split; [rewrite Hcap; reflexivity|]. split; [rewrite Htags; reflexivity|].
    split; [exact Hviews|]. split; [exact Hres | exact Href].
  - destruct (handleUpload_outcomes w_clip uploadForm alice demoFile fullBrowser
                (ret Pending) eq_refl) as (_ & Hdone); [discriminate|].
    destruct (Hdone demoMedia eq_refl)
      as (w' & v & Hrun & Hv & _ & Hurl & _ & _ & _ & _ & _ & _ & _
          & _ & _ & _ & Hrefused); [reflexivity | apply lookup_empty |].
    destruct Hrefused as (Hblobs & _); [by eexists|].
    exists w', v. split; [exact Hrun|]. split; [exact Hv|].
    split; [rewrite Hurl; vm_compute; reflexivity | exact Hblobs].
  - destruct (handleUpload_outcomes w_clip
                (Upload.mkState (Some brokenFile) "Hi" "" false) alice brokenFile
                demoBrowser (ret Pending) eq_refl) as (Hwait & _); [discriminate|].
    apply Hwait. reflexivity.
Defined.

Lemma mockUpload_witness :
  mockUpload brokenFile (Some (λ _ w, w)) demoBrowser w_clip = (Ok Pending, w_clip) ∧
  ∃ resp w',
    mockUpload demoFile (Some (λ _ w, w)) fullBrowser w_clip =
      (Ok (Settled resp), w') ∧
    public_id resp = "local_1700000000020" ∧ width resp = 640 ∧
    db w' = db w_clip ∧
    out w' = [ConsoleWarn "Failed to save video blob to IndexedDB"].
Proof.
  destruct (mockUpload_reports_progress w_clip brokenFile (λ _ w, w) demoBrowser)
    as (_ & Hpending & _).
  split; [apply Hpending; reflexivity|].
  destruct (mockUpload_reports_progress w_clip demoFile (λ _ w, w) fullBrowser)
    as (_ & _ & Hsettled).
  destruct (Hsettled demoMedia eq_refl)
    as (resp & w' & Hrun & Hid & _ & Hwidth & _ & _ & _ & _ & Hrefused).
  destruct Hrefused as (Hdb & Hout); [by eexists|].
  exists resp, w'. split; [exact Hrun|].
  split; [rewrite Hid; vm_compute; reflexivity|].
  split; [exact Hwidth|]. split; [exact Hdb | exact Hout].
Defined.

Lemma Search_witness :
  ∃ st' w',
    Search.onQueryChange (Search.mkState "DEMO" [clip; hosted] []) w_clip =
      (Ok st', w') ∧
    (* [clip] carries the tag "demo"; [hosted] has nothing like it *)
    clip ∈ Search.filteredVideos st' ∧ (hosted ∉ Search.filteredVideos st') ∧
    length (Search.filteredVideos st') = 1%nat ∧
    logs (db w') =
      {[ "uuid-20" :=
           Log.mk "uuid-20" LogType.search "Searched for: DEMO" 1700000000021
             (Some [("query", MetaStr "DEMO"); ("resultsCount", MetaNum 1)]) ]}.
Proof.
  destruct (Search_onQueryChange_filters w_clip
              (Search.mkState "DEMO" [clip; hosted] []))
    as (st' & w' & Hrun & _ & _ & _ & _ & _ & _ & _ & _ & _ & Hquery & _).
  destruct Hquery as (Hsub & Hmem & _ & Hlog); [discriminate|].
  assert (Hclip : clip ∈ Search.filteredVideos st').
  { apply Hmem. split; [apply list_elem_of_here|].
    right. right. exists "demo". split; [apply list_elem_of_here | reflexivity]. }
  assert (Hhosted : hosted ∉ Search.filteredVideos st').
  { intros Hin. apply Hmem in Hin as (_ & [Hc | [Hn | (tag & Htag & _)]]).
    - discriminate Hc.
    - discriminate Hn.
    - by apply elem_of_nil in Htag. }
  assert (Hlen : length (Search.filteredVideos st') = 1%nat).
  { simpl in Hsub. apply sublist_cons_r in Hsub as [Hsub | (l & Heq & Hsub)].
    - apply sublist_cons_r in Hsub as [Hsub | (l & Heq & _)].
      + apply sublist_nil_r in Hsub. rewrite Hsub in Hclip.
        by apply elem_of_nil in Hclip.
      + rewrite Heq in Hclip, Hhosted.
        destruct Hhosted. apply list_elem_of_here.
    - apply sublist_cons_r in Hsub as [Hsub | (l' & Heq' & _)].
      + apply sublist_nil_r in Hsub. by rewrite Heq, Hsub.
      + rewrite Heq, Heq' in Hhosted. destruct Hhosted.
        apply list_elem_of_further, list_elem_of_here. }
  exists st', w'. split; [exact Hrun|]. split; [exact Hclip|].
  split; [exact Hhosted|]. split; [exact Hlen|].
  rewrite Hlog; [|simpl; lia|apply lookup_empty]. rewrite Hlen. reflexivity.
Defined.

Lemma handleLogout_witness :
  ∃ ctx' w',
    Navbar.handleLogout (AuthContext.mkState (Some alice) false true) w_in =
      (Ok ctx', w') ∧
    session (db w') = ∅ ∧ AuthContext.isAuth ctx' = false ∧
    ProtectedRoute ctx' = RedirectTo "/login".
Proof.
  destruct (handleLogout_signs_out w_in
              (AuthContext.mkState (Some alice) false true))
    as (ctx' & w' & Hrun & Hs & _ & Ha & _ & Hguard & _).
  - right. vm_compute. reflexivity.
  - exists ctx', w'. split; [exact Hrun|]. split; [exact Hs|].
    split; [exact Ha|]. apply Hguard. reflexivity.
Defined.

End MoreScenarios.
